(** * Verification of scripts/vps_switch_media_to_r2.py

    The script rewrites two remote configuration files: a [.env] file
    ([_parse_env], [_format_env]) and a Caddyfile
    ([_strip_s3_vhost_from_caddyfile]).  The three functions are pure
    text transformations; they are embedded here as functions over
    Python strings and their properties are proved. *)

From Stdlib Require Import String Ascii NArith ZArith Bool Lia ZifyBool ListSet List.
From Equations Require Import Equations.
Import ListNotations.

(** ** Python strings

    A Python [str] is a sequence of Unicode code points.  A code point
    is a number; a string is a list of them. *)

Definition char := N.
Definition str := list char.

(** Literals of the source, written as Rocq strings (code points below
    256, one per character). *)
Definition py (s : string) : str := map N_of_ascii (list_ascii_of_string s).
Arguments py s%_string.

Definition LF : char := 10%N.
Definition CR : char := 13%N.
Definition EQ : char := 61%N.      (* = *)
Definition HASH : char := 35%N.    (* # *)
Definition DQ : char := 34%N.      (* double quote *)
Definition SQ : char := 39%N.      (* single quote *)
Definition LBRACE : char := 123%N. (* { *)
Definition RBRACE : char := 125%N. (* } *)
Definition UNDERSCORE : char := 95%N.

Definition in_range (lo hi c : N) : bool := ((lo <=? c) && (c <=? hi))%N.

(** [str.isspace] on one code point; the same set is [\s] of [re] on a
    [str] pattern and what [str.strip()] removes. *)
Definition isspace (c : char) : bool :=
  in_range 9 13 c || in_range 28 31 c || (c =? 32)%N || (c =? 133)%N ||
  (c =? 160)%N || (c =? 5760)%N || in_range 8192 8202 c ||
  (c =? 8232)%N || (c =? 8233)%N || (c =? 8239)%N || (c =? 8287)%N ||
  (c =? 12288)%N.

(** The line boundaries of [str.splitlines]. *)
Definition is_linebreak (c : char) : bool :=
  in_range 10 13 c || in_range 28 30 c || (c =? 133)%N ||
  (c =? 8232)%N || (c =? 8233)%N.

(** [[A-Za-z_]] and [[A-Za-z0-9_]]. *)
Definition is_ident_start (c : char) : bool :=
  in_range 65 90 c || in_range 97 122 c || (c =? UNDERSCORE)%N.
Definition is_ident_char (c : char) : bool :=
  is_ident_start c || in_range 48 57 c.

(** [[^\s{]]. *)
Definition is_label_char (c : char) : bool :=
  negb (isspace c) && negb (c =? LBRACE)%N.

Definition str_eq_dec : forall a b : str, {a = b} + {a <> b} :=
  list_eq_dec N.eq_dec.

Set Implicit Arguments.

Section ListOps.
Variable A : Type.
Variable p : A -> bool.

Fixpoint take_while (l : list A) : list A :=
  match l with
  | [] => []
  | x :: l' => if p x then x :: take_while l' else []
  end.

Fixpoint drop_while (l : list A) : list A :=
  match l with
  | [] => []
  | x :: l' => if p x then drop_while l' else l
  end.

End ListOps.

Unset Implicit Arguments.

(** [s.splitlines()]: the text is cut at every line boundary, [\r\n]
    counts as one boundary, and a boundary at the very end opens no
    further (empty) line. *)
Fixpoint splitlines (s : str) : list str :=
  match s with
  | [] => []
  | c :: s' =>
      if is_linebreak c then
        [] :: (if (c =? CR)%N
               then match s' with
                    | c' :: s'' => if (c' =? LF)%N then splitlines s''
                                   else splitlines s'
                    | [] => splitlines s'
                    end
               else splitlines s')
      else
        match splitlines s' with
        | [] => [[c]]
        | l :: ls => (c :: l) :: ls
        end
  end.

(** [join ls] is the newline-separated concatenation of line 68 and
    line 159. *)
Fixpoint join (ls : list str) : str :=
  match ls with
  | [] => []
  | [l] => l
  | l :: ls' => l ++ LF :: join ls'
  end.

Definition lstrip (s : str) : str := drop_while isspace s.
Definition rstrip (s : str) : str := rev (drop_while isspace (rev s)).
Definition strip (s : str) : str := rstrip (lstrip s).

(** [s.count(c)] for a one-character [c]. *)
Definition count (c : char) (s : str) : Z :=
  Z.of_nat (length (filter (N.eqb c) s)).

(** ** Dictionaries

    A Python [dict] keeps its keys unique and in insertion order; both
    are observable in [_format_env], so it is an association list. *)

Definition dict := list (str * str).

Fixpoint dict_get (k : str) (d : dict) : option str :=
  match d with
  | [] => None
  | (k', v) :: d' => if str_eq_dec k k' then Some v else dict_get k d'
  end.

(** [k in d] *)
Definition dict_mem (k : str) (d : dict) : bool :=
  match dict_get k d with Some _ => true | None => false end.

(** [d[k]]; both uses in the source are guarded by [k in d] or take [k]
    from [d.keys()], so the [KeyError] branch is never reached and the
    default stands for it. *)
Definition getitem (d : dict) (k : str) : str :=
  match dict_get k d with Some v => v | None => [] end.

(** [d[k] = v]: an existing key keeps its place, a new one goes last. *)
Fixpoint dict_set (k v : str) (d : dict) : dict :=
  match d with
  | [] => [(k, v)]
  | (k', v') :: d' =>
      if str_eq_dec k k' then (k', v) :: d' else (k', v') :: dict_set k v d'
  end.

(** [d.keys()] *)
Definition keys (d : dict) : list str := map fst d.

(** ** [_parse_env] *)

(** The split of line 33, at the first equals sign of a line that has
    one. *)
Definition split_once (line : str) : str * str :=
  (take_while (fun c => negb (c =? EQ)%N) line,
   tl (drop_while (fun c => negb (c =? EQ)%N) line)).

(** The quote test and [v[1:-1]] of lines 36-37. *)
Definition unquote (v : str) : str :=
  if (2 <=? length v)%nat &&
     (((nth 0 v 0 =? DQ) && (last v 0 =? DQ)) ||
      ((nth 0 v 0 =? SQ) && (last v 0 =? SQ)))%N
  then removelast (tl v)
  else v.

(** What one iteration of the loop stores: [None] for the three
    [continue] paths, the pair [(k, v)] of line 38 otherwise. *)
Definition parse_line (raw : str) : option (str * str) :=
  let line := strip raw in
  match line with
  | [] => None
  | c :: _ =>
      if (c =? HASH)%N then None
      else if negb (existsb (N.eqb EQ) line) then None
      else
        let (k, v) := split_once line in
        Some (strip k, unquote (strip v))
  end.

Definition parse_env_step (out : dict) (raw : str) : dict :=
  match parse_line raw with
  | None => out
  | Some (k, v) => dict_set k v out
  end.

Definition _parse_env (content : str) : dict :=
  fold_left parse_env_step (splitlines content) [].

(** ** [_format_env] *)

(** The pattern of line 51, spaced out as under re.VERBOSE:
      ^ \s* ( [A-Za-z_] [A-Za-z0-9_]* ) \s* = \s* ( .* ) \s* $
    [match_env_key] returns group 1 of [re.match] on it.  The classes
    \s, identifier characters and = are pairwise disjoint, so the greedy
    choices are the only ones that can succeed.  The tail after = accepts
    whitespace, then characters other than a newline, then whitespace up
    to the end. *)
Definition env_tail_ok (s : str) : bool :=
  forallb isspace (drop_while (fun c => negb (c =? LF)%N) (lstrip s)).

Definition match_env_key (line : str) : option str :=
  match lstrip line with
  | c :: s =>
      if is_ident_start c then
        match lstrip (drop_while is_ident_char s) with
        | e :: t =>
            if (e =? EQ)%N && env_tail_ok t
            then Some (c :: take_while is_ident_char s)
            else None
        | [] => None
        end
      else None
  | [] => None
  end.

(** The f-string of lines 58 and 67: k, an equals sign, and v between
    double quotes. *)
Definition fmt (k v : str) : str := k ++ EQ :: DQ :: v ++ [DQ].

Definition marker : str := py "# Added by vps_switch_media_to_r2.py".

(** The body of the [for line in lines] loop, on the pair
    [(existing_keys, out_lines)]. *)
Definition format_env_step (d : dict) (st : set str * list str) (line : str)
  : set str * list str :=
  let (existing_keys, out_lines) := st in
  match match_env_key line with
  | None => (existing_keys, out_lines ++ [line])
  | Some k =>
      let existing_keys := set_add str_eq_dec k existing_keys in
      if dict_mem k d
      then (existing_keys, out_lines ++ [fmt k (getitem d k)])
      else (existing_keys, out_lines ++ [line])
  end.

(** [out_lines] as it stands at the [return]. *)
Definition format_env_lines (d : dict) (original : str) : list str :=
  let (existing_keys, out_lines) :=
    fold_left (format_env_step d) (splitlines original) (empty_set str, []) in
  let missing :=
    filter (fun k => negb (set_mem str_eq_dec k existing_keys)) (keys d) in
  match missing with
  | [] => out_lines
  | _ :: _ =>
      (out_lines ++ [[]] ++ [marker]) ++ map (fun k => fmt k (getitem d k)) missing
  end.

Definition _format_env (d : dict) (original : str) : str :=
  join (format_env_lines d original) ++ [LF].

(** ** [_strip_s3_vhost_from_caddyfile] *)

(** The pattern of line 143, spaced out as under re.VERBOSE:
      ^ \s* ( s3\. [^\s{]+ ) \s* \{ \s* $
    [match_s3_header] returns group 1 of [re.match] on it. *)
Definition s3_dot : str := py "s3.".

Definition match_s3_header (line : str) : option str :=
  match lstrip line with
  | a :: b :: c :: r =>
      if (a =? 115)%N && (b =? 51)%N && (c =? 46)%N then
        match take_while is_label_char r with
        | [] => None
        | lbl =>
            match lstrip (drop_while is_label_char r) with
            | e :: t =>
                if (e =? LBRACE)%N && forallb isspace t
                then Some (s3_dot ++ lbl)
                else None
            | [] => None
            end
        end
      else None
  | _ => None
  end.

(** Opening minus closing braces of one line (lines 151 and 154). *)
Definition brace_delta (line : str) : Z := count LBRACE line - count RBRACE line.

(** The test of line 157: the line strips to the empty string. *)
Definition is_blank (line : str) : bool :=
  match strip line with [] => true | _ :: _ => false end.

(** The loops below take [lines[i:]] for the index [i].  The first is
    [while i < len(lines) and depth > 0], the second
    the loop of line 157 over blank lines; each returns the lines left
    when it exits. *)
Fixpoint skip_block (depth : Z) (ls : list str) : list str :=
  match ls with
  | [] => []
  | l :: ls' => if (0 <? depth)%Z then skip_block (depth + brace_delta l) ls' else ls
  end.

Fixpoint skip_blank (ls : list str) : list str :=
  match ls with
  | [] => []
  | l :: ls' => if is_blank l then skip_blank ls' else ls
  end.

(** The outer [while i < len(lines)] loop; the result is [out]. *)
Equations? scan (ls : list str) : list str by wf (length ls) lt :=
  scan [] := [];
  scan (l :: ls') with match_s3_header l := {
    | None := l :: scan ls';
    | Some _ := scan (skip_blank (skip_block (brace_delta l) ls')) }.
Proof.
  assert (Hb : forall d (xs : list str), length (skip_block d xs) <= length xs).
  { intros d xs; revert d; induction xs as [|x xs IH]; intros d; simpl.
    - lia.
    - destruct (0 <? d)%Z; simpl; [specialize (IH (d + brace_delta x)%Z)|]; lia. }
  assert (Hk : forall xs : list str, length (skip_blank xs) <= length xs).
  { induction xs as [|x xs IH]; simpl; [lia|].
    destruct (is_blank x); simpl; lia. }
  specialize (Hb (brace_delta l) ls').
  specialize (Hk (skip_block (brace_delta l) ls')). lia.
Qed.

Definition _strip_s3_vhost_from_caddyfile (caddyfile : str) : str :=
  rstrip (join (scan (splitlines caddyfile))) ++ [LF].

(** ** Vocabulary of the properties *)

(** The line has the key-value shape with key [k]. *)
Definition has_key (k : str) (line : str) : bool :=
  match match_env_key line with
  | Some k' => if str_eq_dec k k' then true else false
  | None => false
  end.

(** What the loop of [_format_env] emits for one line. *)
Definition rewrite_line (d : dict) (line : str) : str :=
  match match_env_key line with
  | Some k => match dict_get k d with Some v => fmt k v | None => line end
  | None => line
  end.

(** The keys of [d], in the order of [d], that no line of [lines] defines. *)
Definition missing_keys (d : dict) (lines : list str) : list str :=
  filter (fun k => negb (existsb (has_key k) lines)) (keys d).

(** The trailing section for the keys [ks]: nothing when there is none,
    else an empty line, the marker line and one line per key. *)
Definition appendix (d : dict) (ks : list str) : list str :=
  match ks with
  | [] => []
  | _ :: _ => [] :: marker :: map (fun k => fmt k (getitem d k)) ks
  end.

(** A text given by its lines, each ended by a newline. *)
Definition text_of (ls : list str) : str := flat_map (fun l => l ++ [LF]) ls.

(** [k] is an identifier in the sense of the pattern of line 51. *)
Definition is_ident (k : str) : bool :=
  match k with
  | [] => false
  | c :: cs => is_ident_start c && forallb is_ident_char cs
  end.

Definition no_linebreak (s : str) : bool := forallb (fun c => negb (is_linebreak c)) s.

(** The only line boundary of the text is the newline character. *)
Definition lf_only (s : str) : bool :=
  forallb (fun c => negb (is_linebreak c) || (c =? LF)%N) s.

(** The text is not empty and its last character is a newline. *)
Definition ends_with_newline (s : str) : bool :=
  match s with [] => false | _ :: _ => (last s 0 =? LF)%N end.

(** The text without the newline characters at its end. *)
Definition drop_trailing_newlines (s : str) : str :=
  rev (drop_while (fun c => (c =? LF)%N) (rev s)).

(** The brace balance of a run of lines. *)
Definition sum_delta (ls : list str) : Z := fold_right Z.add 0%Z (map brace_delta ls).

Definition not_header (l : str) : Prop := match_s3_header l = None.

(** [rstrip] of a joined text, line by line: the blank lines at the end
    go, and the last line that stays loses its trailing whitespace. *)
Definition rstrip_lines (ls : list str) : list str :=
  fold_right
    (fun l acc =>
       match acc with
       | [] => match rstrip l with [] => [] | _ :: _ => [rstrip l] end
       | _ :: _ => l :: acc
       end) [] ls.

(** The update set has identifiers as keys and values free of line
    boundaries. *)
Definition well_formed_updates (d : dict) : Prop :=
  forall k v, In (k, v) d -> is_ident k = true /\ no_linebreak v = true.

(** ** The loop of [_format_env] in closed form *)

Lemma has_key_true k line : has_key k line = true <-> match_env_key line = Some k.
Proof.
  unfold has_key. destruct (match_env_key line) as [k'|].
  - destruct (str_eq_dec k k'); split; intros H; try congruence.
  - split; discriminate.
Qed.

Lemma in_keys_dict_get d k : In k (keys d) -> exists v, dict_get k d = Some v.
Proof.
  induction d as [|[k' v'] d IH]; simpl; [tauto|].
  intros [H|H]; destruct (str_eq_dec k k') as [E|E]; eauto; congruence.
Qed.

Lemma format_env_step_spec d ex out l :
  exists ex1,
    format_env_step d (ex, out) l = (ex1, out ++ [rewrite_line d l])
    /\ forall k, set_In k ex1 <-> set_In k ex \/ has_key k l = true.
Proof.
  unfold format_env_step, rewrite_line, dict_mem, getitem.
  destruct (match_env_key l) as [k0|] eqn:Hm.
  - assert (Hk : forall k, has_key k l = true <-> k = k0).
    { intros k. rewrite has_key_true, Hm. split; congruence. }
    exists (set_add str_eq_dec k0 ex).
    split; [destruct (dict_get k0 d); reflexivity|].
    intros k. rewrite set_add_iff, Hk. tauto.
  - exists ex. split; [reflexivity|]. intros k. unfold has_key. rewrite Hm.
    intuition discriminate.
Qed.

Lemma format_env_step_fold d lines : forall ex out,
  exists ex',
    fold_left (format_env_step d) lines (ex, out) = (ex', out ++ map (rewrite_line d) lines)
    /\ forall k, set_In k ex' <-> set_In k ex \/ existsb (has_key k) lines = true.
Proof.
  induction lines as [|l lines IH]; intros ex out; cbn [fold_left map existsb].
  - exists ex. rewrite app_nil_r. split; [reflexivity|]. intros k. intuition discriminate.
  - destruct (format_env_step_spec d ex out l) as [ex1 [-> H1]].
    destruct (IH ex1 (out ++ [rewrite_line d l])) as [ex' [-> Hin]].
    exists ex'. rewrite <- app_assoc. split; [reflexivity|].
    intros k. rewrite Hin, H1, orb_true_iff. tauto.
Qed.

Lemma format_env_lines_closed d original :
  format_env_lines d original =
  map (rewrite_line d) (splitlines original) ++
  appendix d (missing_keys d (splitlines original)).
Proof.
  unfold format_env_lines.
  destruct (format_env_step_fold d (splitlines original) (empty_set str) [])
    as [ex' [-> Hin]]. simpl.
  assert (E : filter (fun k => negb (set_mem str_eq_dec k ex')) (keys d)
              = missing_keys d (splitlines original)).
  { unfold missing_keys. apply filter_ext. intros k. f_equal.
    destruct (existsb (has_key k) (splitlines original)) eqn:He.
    - apply set_mem_correct2. apply Hin. now right.
    - apply set_mem_complete2. intros H. apply Hin in H. destruct H as [[]|H]. congruence. }
  rewrite E. destruct (missing_keys d (splitlines original)); simpl.
  - now rewrite app_nil_r.
  - now rewrite <- app_assoc.
Qed.

(** C7. After the loop over the lines, [_format_env] appends exactly the
    keys of the update set that no key-value line of the input defines: an
    empty line, the marker comment and one key="value" line per such key,
    in the order of the update set; with no such key it appends nothing. *)
Theorem format_env_appends_missing (d : dict) (original : str) :
  let lines := splitlines original in
  let missing := missing_keys d lines in
  missing = filter (fun k => negb (existsb (has_key k) lines)) (keys d)
  /\ (forall k, In k missing <->
                In k (keys d) /\ forall l, In l lines -> match_env_key l <> Some k)
  /\ _format_env d original =
     join (map (rewrite_line d) lines ++
           match missing with
           | [] => []
           | _ :: _ => [] :: marker :: map (fun k => fmt k (getitem d k)) missing
           end) ++ [LF].
Proof.
  intros lines missing. split; [reflexivity|]. split.
  - intros k. unfold missing, missing_keys. rewrite filter_In, negb_true_iff.
    split; intros [Hk Hl]; split; auto.
    + intros l Hin Hm. apply has_key_true in Hm.
      assert (existsb (has_key k) lines = true) by (apply existsb_exists; eauto).
      congruence.
    + destruct (existsb (has_key k) lines) eqn:He; [|reflexivity].
      apply existsb_exists in He. destruct He as [l [Hin Hm]].
      apply has_key_true in Hm. destruct (Hl l Hin Hm).
  - unfold _format_env. rewrite format_env_lines_closed. reflexivity.
Qed.

(** C1 (as amended). Every key-value line whose key is in the update set is
    rewritten to key="value", whether it is the first line with that key or
    a later duplicate. *)
Theorem format_env_rewrites_every_definition
  (d : dict) (original : str) (i : nat) (line k v : str) :
  nth_error (splitlines original) i = Some line ->
  match_env_key line = Some k ->
  dict_get k d = Some v ->
  nth_error (format_env_lines d original) i = Some (fmt k v).
Proof.
  intros Hi Hm Hd. rewrite format_env_lines_closed.
  rewrite nth_error_app1.
  - rewrite nth_error_map, Hi. simpl. unfold rewrite_line. now rewrite Hm, Hd.
  - rewrite length_map. apply nth_error_Some. congruence.
Qed.

(** ** Character classes *)

Ltac char_solve :=
  intros;
  unfold is_label_char, is_ident_char, is_ident_start, isspace, is_linebreak,
    in_range, LF, CR, EQ, HASH, DQ, SQ, LBRACE, RBRACE, UNDERSCORE in *;
  lia.

Lemma linebreak_isspace c : is_linebreak c = true -> isspace c = true.
Proof. char_solve. Qed.

Lemma ident_char_not_space c : is_ident_char c = true -> isspace c = false.
Proof. char_solve. Qed.

Lemma ident_start_char c : is_ident_start c = true -> is_ident_char c = true.
Proof. unfold is_ident_char. intros ->. reflexivity. Qed.

Lemma ident_char_not_linebreak c : is_ident_char c = true -> is_linebreak c = false.
Proof. char_solve. Qed.

Lemma not_space_not_linebreak c : isspace c = false -> is_linebreak c = false.
Proof.
  intros H. destruct (is_linebreak c) eqn:E; [|reflexivity].
  apply linebreak_isspace in E. congruence.
Qed.

Lemma space_not_label c : isspace c = true -> is_label_char c = false.
Proof. unfold is_label_char. intros ->. reflexivity. Qed.

(** ** Prefixes and suffixes cut by a predicate *)

Set Implicit Arguments.

Section ListFacts.
Variable A : Type.
Variable p : A -> bool.

(** The list [y] is empty or starts with an element that fails [p]. *)
Definition stops (y : list A) : Prop :=
  match y with [] => True | x :: _ => p x = false end.

Lemma take_drop_while (l : list A) : take_while p l ++ drop_while p l = l.
Proof. induction l as [|x l IH]; simpl; [reflexivity|]. destruct (p x); simpl; congruence. Qed.

Lemma take_while_all (l : list A) : forallb p (take_while p l) = true.
Proof. induction l as [|x l IH]; simpl; [reflexivity|]. destruct (p x) eqn:E; simpl; [now rewrite E|reflexivity]. Qed.

Lemma drop_while_stops (l : list A) : stops (drop_while p l).
Proof. induction l as [|x l IH]; simpl; [exact I|]. destruct (p x) eqn:E; simpl; auto. Qed.

Lemma take_while_app (x y : list A) :
  forallb p x = true -> stops y -> take_while p (x ++ y) = x.
Proof.
  induction x as [|a x IH]; simpl; intros Hx Hy.
  - destruct y; simpl in *; [reflexivity|now rewrite Hy].
  - apply andb_true_iff in Hx. destruct Hx as [-> Hx]. now rewrite IH.
Qed.

Lemma drop_while_app (x y : list A) :
  forallb p x = true -> drop_while p (x ++ y) = drop_while p y.
Proof.
  induction x as [|a x IH]; simpl; intros Hx; [reflexivity|].
  apply andb_true_iff in Hx. destruct Hx as [-> Hx]. auto.
Qed.

Lemma drop_while_id (y : list A) : stops y -> drop_while p y = y.
Proof. destruct y; simpl; [reflexivity|]. now intros ->. Qed.

Lemma drop_while_all (x : list A) : forallb p x = true -> drop_while p x = [].
Proof. intros H. rewrite <- (app_nil_r x), drop_while_app by assumption. reflexivity. Qed.

Lemma drop_while_nil_all (x : list A) : drop_while p x = [] -> forallb p x = true.
Proof.
  induction x as [|a x IH]; simpl; [reflexivity|].
  destruct (p a); [auto|discriminate].
Qed.

Lemma drop_while_app_keep (x y : list A) :
  drop_while p x <> [] -> drop_while p (x ++ y) = drop_while p x ++ y.
Proof.
  induction x as [|a x IH]; simpl; intros H; [congruence|].
  destruct (p a); [auto|reflexivity].
Qed.

Lemma forallb_drop_while (q : A -> bool) (x : list A) :
  forallb q x = true -> forallb q (drop_while p x) = true.
Proof.
  induction x as [|a x IH]; simpl; intros H; [reflexivity|].
  apply andb_true_iff in H. destruct H as [Ha Hx].
  destruct (p a); simpl; [auto|now rewrite Ha, Hx].
Qed.

End ListFacts.

Unset Implicit Arguments.

(** ** Stripping *)

Lemma lstrip_app_space w s : forallb isspace w = true -> lstrip (w ++ s) = lstrip s.
Proof. apply drop_while_app. Qed.

Lemma lstrip_id s : stops isspace s -> lstrip s = s.
Proof. apply drop_while_id. Qed.

Lemma rstrip_app_space s w : forallb isspace w = true -> rstrip (s ++ w) = rstrip s.
Proof.
  intros H. unfold rstrip. rewrite rev_app_distr, drop_while_app; [reflexivity|].
  rewrite forallb_forall in *. intros x Hx. apply H. now apply in_rev.
Qed.

Lemma rstrip_app_keep a b :
  forallb isspace b = false -> rstrip (a ++ b) = a ++ rstrip b.
Proof.
  intros H. unfold rstrip. rewrite rev_app_distr, drop_while_app_keep.
  - now rewrite rev_app_distr, rev_involutive.
  - intros E. apply drop_while_nil_all in E.
    assert (forallb isspace b = true); [|congruence].
    rewrite forallb_forall in *. intros x Hx. apply E. now apply in_rev in Hx.
Qed.

Lemma rstrip_split s : exists w, s = rstrip s ++ w /\ forallb isspace w = true.
Proof.
  unfold rstrip. exists (rev (take_while isspace (rev s))). split.
  - rewrite <- rev_app_distr, take_drop_while. now rewrite rev_involutive.
  - pose proof (take_while_all isspace (rev s)) as H.
    rewrite forallb_forall in *. intros x Hx. apply H. now apply in_rev.
Qed.

Lemma rstrip_all_space s : forallb isspace s = true -> rstrip s = [].
Proof. intros H. rewrite <- (app_nil_l s), rstrip_app_space by assumption. reflexivity. Qed.

Lemma rstrip_nil_all_space s : rstrip s = [] -> forallb isspace s = true.
Proof. intros H. destruct (rstrip_split s) as [w [E Hw]]. rewrite H in E. now subst. Qed.

Lemma rstrip_idem s : rstrip (rstrip s) = rstrip s.
Proof.
  unfold rstrip. rewrite rev_involutive.
  rewrite (drop_while_id isspace (drop_while isspace (rev s))); [reflexivity|].
  apply drop_while_stops.
Qed.

(** ** Lines *)

Lemma splitlines_nonempty c s : splitlines (c :: s) <> [].
Proof.
  simpl. destruct (is_linebreak c); [discriminate|].
  destruct (splitlines s); discriminate.
Qed.

Lemma splitlines_eq_nil s : splitlines s = [] -> s = [].
Proof. destruct s as [|c s]; [reflexivity|]. intros H. destruct (splitlines_nonempty c s H). Qed.

Lemma splitlines_no_linebreak s : Forall (fun l => no_linebreak l = true) (splitlines s).
Proof.
  assert (H : forall n s, length s <= n ->
                          Forall (fun l => no_linebreak l = true) (splitlines s)).
  { clear s. induction n as [|n IH]; intros [|c s] Hn; simpl in *; try constructor; try lia.
    destruct (is_linebreak c) eqn:Hc.
    - constructor; [reflexivity|].
      destruct (c =? CR)%N; [|apply IH; lia].
      destruct s as [|c' s'']; [constructor|].
      destruct (c' =? LF)%N; apply IH; simpl in *; lia.
    - specialize (IH s ltac:(lia)).
      destruct (splitlines s) as [|l ls].
      + repeat constructor. simpl. now rewrite Hc.
      + inversion IH; subst. constructor; [|assumption]. simpl. now rewrite Hc. }
  exact (H (length s) s (le_n _)).
Qed.

(** A line without line boundaries, followed by a newline, is the first
    line of the text. *)
Lemma splitlines_line l rest :
  no_linebreak l = true -> splitlines (l ++ LF :: rest) = l :: splitlines rest.
Proof.
  induction l as [|c l IH]; simpl; intros H; [reflexivity|].
  apply andb_true_iff in H. destruct H as [Hc Hl].
  apply negb_true_iff in Hc. rewrite Hc, (IH Hl). reflexivity.
Qed.

Lemma join_cons l ls : ls <> [] -> join (l :: ls) = l ++ LF :: join ls.
Proof. destruct ls; [congruence|reflexivity]. Qed.

Lemma splitlines_join ls :
  ls <> [] -> Forall (fun l => no_linebreak l = true) ls ->
  splitlines (join ls ++ [LF]) = ls.
Proof.
  induction ls as [|l ls IH]; [congruence|]. intros _ H.
  inversion H as [|? ? Hl Hls]; subst.
  destruct ls as [|l2 ls].
  - simpl. rewrite (splitlines_line _ [] Hl). reflexivity.
  - rewrite join_cons by discriminate. rewrite <- app_assoc. simpl.
    rewrite (splitlines_line _ _ Hl). f_equal. apply IH; [discriminate|assumption].
Qed.

Definition ensure_newline (s : str) : str :=
  if ends_with_newline s then s else s ++ [LF].

Lemma ensure_newline_cons c c' s :
  ensure_newline (c :: c' :: s) = c :: ensure_newline (c' :: s).
Proof.
  unfold ensure_newline, ends_with_newline.
  change (last (c :: c' :: s) 0%N) with (last (c' :: s) 0%N).
  destruct (last (c' :: s) 0 =? LF)%N; reflexivity.
Qed.

Lemma join_cons_char c l ls : join ((c :: l) :: ls) = c :: join (l :: ls).
Proof. destruct ls; reflexivity. Qed.

Lemma splitlines_lf s : splitlines (LF :: s) = [] :: splitlines s.
Proof. reflexivity. Qed.

Lemma splitlines_char c s :
  is_linebreak c = false ->
  splitlines (c :: s) =
  match splitlines s with [] => [[c]] | l :: ls => (c :: l) :: ls end.
Proof. intros H. simpl. now rewrite H. Qed.

(** On a text whose only line boundary is the newline, splitting and
    joining again changes nothing but the final newline. *)
Lemma join_splitlines_lf s :
  lf_only s = true -> join (splitlines s) ++ [LF] = ensure_newline s.
Proof.
  induction s as [|c s IH]; [reflexivity|]. intros H.
  simpl in H. apply andb_true_iff in H. destruct H as [Hc Hs].
  specialize (IH Hs).
  destruct (is_linebreak c) eqn:Hlb.
  - assert (c = LF) by (simpl in Hc; apply N.eqb_eq; exact Hc). subst c.
    rewrite splitlines_lf.
    destruct s as [|c' s]; [reflexivity|].
    rewrite ensure_newline_cons, <- IH.
    rewrite join_cons by apply splitlines_nonempty. reflexivity.
  - rewrite (splitlines_char c s Hlb).
    destruct s as [|c' s].
    + simpl. unfold ensure_newline, ends_with_newline. simpl.
      destruct (c =? LF)%N eqn:E; [|reflexivity].
      apply N.eqb_eq in E. subst. discriminate.
    + rewrite ensure_newline_cons, <- IH.
      destruct (splitlines (c' :: s)) as [|l ls] eqn:E.
      * destruct (splitlines_nonempty c' s E).
      * rewrite join_cons_char. reflexivity.
Qed.

Lemma rewrite_line_empty l : rewrite_line [] l = l.
Proof. unfold rewrite_line. destruct (match_env_key l); reflexivity. Qed.

Lemma format_env_empty original :
  _format_env [] original = join (splitlines original) ++ [LF].
Proof.
  unfold _format_env. rewrite format_env_lines_closed. simpl.
  rewrite app_nil_r. f_equal. f_equal.
  induction (splitlines original) as [|l ls IH]; simpl; [reflexivity|].
  now rewrite rewrite_line_empty, IH.
Qed.

(** C4 (as amended). With an empty update set and a text whose only line
    boundary is the newline character, [_format_env] returns the text
    itself when it ends with a newline and the text followed by one newline
    otherwise; this holds for every such text, opaque lines or not. *)
Theorem format_env_empty_updates_roundtrip (original : str) :
  lf_only original = true ->
  _format_env [] original =
  if ends_with_newline original then original else original ++ [LF].
Proof.
  intros H. rewrite format_env_empty. now apply join_splitlines_lf.
Qed.

(** ** The header pattern *)

Lemma stops_space_then (q : char -> bool) w c t :
  forallb isspace w = true -> q c = false ->
  (forall x, isspace x = true -> q x = false) ->
  stops q (w ++ c :: t).
Proof.
  intros Hw Hc Hq. destruct w as [|x w]; simpl in *; [assumption|].
  apply andb_true_iff in Hw. now apply Hq.
Qed.

(** Every line of the shape the pattern describes is matched, with the
    label as group 1. *)
Lemma match_s3_header_intro w1 x w2 w3 :
  forallb isspace w1 = true -> x <> [] -> forallb is_label_char x = true ->
  forallb isspace w2 = true -> forallb isspace w3 = true ->
  match_s3_header (w1 ++ s3_dot ++ x ++ w2 ++ LBRACE :: w3) = Some (s3_dot ++ x).
Proof.
  intros H1 Hx Hl H2 H3. unfold match_s3_header.
  rewrite lstrip_app_space by assumption.
  rewrite lstrip_id by reflexivity. cbn [s3_dot py list_ascii_of_string map app].
  change ((N_of_ascii "s" =? 115)%N && (N_of_ascii "3" =? 51)%N
          && (N_of_ascii "." =? 46)%N) with true. cbv iota.
  assert (Hs : stops is_label_char (w2 ++ LBRACE :: w3)).
  { apply stops_space_then; auto using space_not_label. }
  rewrite take_while_app, drop_while_app, (drop_while_id _ _ Hs) by assumption.
  rewrite lstrip_app_space, lstrip_id by (assumption || reflexivity).
  rewrite N.eqb_refl, H3. destruct x; [congruence|reflexivity].
Qed.

(** Every matched line has that shape. *)
Lemma match_s3_header_elim line lbl :
  match_s3_header line = Some lbl ->
  exists w1 x w2 w3,
    line = w1 ++ s3_dot ++ x ++ w2 ++ LBRACE :: w3 /\
    forallb isspace w1 = true /\ x <> [] /\ forallb is_label_char x = true /\
    forallb isspace w2 = true /\ forallb isspace w3 = true /\ lbl = s3_dot ++ x.
Proof.
  unfold match_s3_header. intros H.
  pose proof (take_drop_while isspace line) as Hline.
  pose proof (take_while_all isspace line) as Hw1.
  fold (lstrip line) in Hline.
  destruct (lstrip line) as [|a [|b [|c r]]]; try discriminate.
  destruct ((a =? 115)%N && (b =? 51)%N && (c =? 46)%N) eqn:Habc; [|discriminate].
  apply andb_true_iff in Habc. destruct Habc as [Hab Hc].
  apply andb_true_iff in Hab. destruct Hab as [Ha Hb].
  apply N.eqb_eq in Ha, Hb, Hc. subst a b c.
  pose proof (take_drop_while is_label_char r) as Hr.
  pose proof (take_while_all is_label_char r) as Hx.
  destruct (take_while is_label_char r) as [|x0 x] eqn:Ex; [discriminate|].
  pose proof (take_drop_while isspace (drop_while is_label_char r)) as Hd.
  pose proof (take_while_all isspace (drop_while is_label_char r)) as Hw2.
  fold (lstrip (drop_while is_label_char r)) in Hd.
  destruct (lstrip (drop_while is_label_char r)) as [|e t]; [discriminate|].
  destruct ((e =? LBRACE)%N && forallb isspace t) eqn:He; [|discriminate].
  apply andb_true_iff in He. destruct He as [He Ht]. apply N.eqb_eq in He. subst e.
  injection H as <-.
  exists (take_while isspace line), (x0 :: x),
    (take_while isspace (drop_while is_label_char r)), t.
  repeat split; try assumption; try discriminate.
  rewrite <- Hr in Hline. rewrite <- Hd in Hline. symmetry. exact Hline.
Qed.

Lemma match_s3_header_app_space l w :
  forallb isspace w = true -> match_s3_header l <> None ->
  match_s3_header (l ++ w) <> None.
Proof.
  intros Hw H. destruct (match_s3_header l) as [lbl|] eqn:E; [|congruence].
  apply match_s3_header_elim in E.
  destruct E as (w1 & x & w2 & w3 & -> & H1 & Hx & Hl & H2 & H3 & _).
  replace ((w1 ++ s3_dot ++ x ++ w2 ++ LBRACE :: w3) ++ w)
    with (w1 ++ s3_dot ++ x ++ w2 ++ LBRACE :: (w3 ++ w))
    by (now rewrite <- !app_assoc).
  rewrite match_s3_header_intro; try assumption; [discriminate|].
  now rewrite forallb_app, H3, Hw.
Qed.

Lemma not_header_rstrip l : not_header l -> not_header (rstrip l).
Proof.
  unfold not_header. intros H.
  destruct (match_s3_header (rstrip l)) eqn:E; [|reflexivity].
  destruct (rstrip_split l) as [w [Hl Hw]].
  exfalso. apply (match_s3_header_app_space (rstrip l) w Hw); [congruence|].
  now rewrite <- Hl.
Qed.

(** ** The scan of [_strip_s3_vhost_from_caddyfile] *)

Lemma scan_cons l ls :
  scan (l :: ls) =
  match match_s3_header l with
  | None => l :: scan ls
  | Some _ => scan (skip_blank (skip_block (brace_delta l) ls))
  end.
Proof. simp scan. destruct (match_s3_header l); reflexivity. Qed.

Lemma scan_app_no_header pre rest :
  Forall not_header pre -> scan (pre ++ rest) = pre ++ scan rest.
Proof.
  induction 1 as [|l pre Hl _ IH]; [reflexivity|].
  simpl. rewrite scan_cons, Hl, IH. reflexivity.
Qed.

Lemma scan_no_header ls : Forall not_header ls -> scan ls = ls.
Proof.
  intros H. rewrite <- (app_nil_r ls) at 1.
  rewrite scan_app_no_header by assumption. simp scan. apply app_nil_r.
Qed.

(** Only lines that are no header reach the output, and they come from
    the input. *)
Lemma scan_keeps_plain_lines ls :
  Forall (fun l => not_header l /\ In l ls) (scan ls).
Proof.
  assert (Hb : forall d xs x, In x (skip_block d xs) -> In x xs).
  { intros d xs; revert d; induction xs as [|y xs IH]; intros d x; simpl; [tauto|].
    destruct (0 <? d)%Z; [right; eauto|tauto]. }
  assert (Hk : forall xs x, In x (skip_blank xs) -> In x xs).
  { induction xs as [|y xs IH]; intros x; simpl; [tauto|].
    destruct (is_blank y); [right; eauto|tauto]. }
  funelim (scan ls).
  - constructor.
  - specialize (H Hb Hk). eapply Forall_impl; [|exact H].
    simpl. intros a [Ha Hin]. split; [assumption|]. right. eauto.
  - specialize (H Hb Hk). constructor; [split; [exact Heq|now left]|].
    eapply Forall_impl; [|exact H]. simpl. intros a [Ha Hin]. split; [assumption|now right].
Qed.

Lemma skip_block_nonpos d ls : (d <= 0)%Z -> skip_block d ls = ls.
Proof.
  intros H. destruct ls as [|l ls]; simpl; [reflexivity|].
  destruct (0 <? d)%Z eqn:E; [lia|reflexivity].
Qed.

Lemma sum_delta_cons l ls : sum_delta (l :: ls) = (brace_delta l + sum_delta ls)%Z.
Proof. reflexivity. Qed.

(** The inner loop stops right after the first line at which the running
    depth is no longer positive. *)
Lemma skip_block_closes body : forall d rest,
  (forall n, n < length body -> (0 < d + sum_delta (firstn n body))%Z) ->
  (d + sum_delta body <= 0)%Z ->
  skip_block d (body ++ rest) = rest.
Proof.
  induction body as [|l body IH]; intros d rest Hopen Hclose.
  - apply skip_block_nonpos. unfold sum_delta in Hclose. simpl in Hclose. lia.
  - pose proof (Hopen 0 ltac:(simpl; lia)) as H0.
    unfold sum_delta in H0. simpl in H0.
    simpl. destruct (0 <? d)%Z eqn:E; [|lia].
    apply IH.
    + intros n Hn. specialize (Hopen (S n) ltac:(simpl; lia)).
      rewrite firstn_cons, sum_delta_cons in Hopen. lia.
    + rewrite sum_delta_cons in Hclose. lia.
Qed.

(** With the depth positive after every line, the inner loop runs to the
    end of the input. *)
Lemma skip_block_unterminated body : forall d,
  (forall n, n <= length body -> (0 < d + sum_delta (firstn n body))%Z) ->
  skip_block d body = [].
Proof.
  induction body as [|l body IH]; intros d Hopen; [reflexivity|].
  pose proof (Hopen 0 ltac:(simpl; lia)) as H0.
  unfold sum_delta in H0. simpl in H0.
  simpl. destruct (0 <? d)%Z eqn:E; [|lia].
  apply IH. intros n Hn. specialize (Hopen (S n) ltac:(simpl; lia)).
  rewrite firstn_cons, sum_delta_cons in Hopen. lia.
Qed.

Lemma skip_blank_app blanks rest :
  Forall (fun l => is_blank l = true) blanks ->
  (forall l, hd_error rest = Some l -> is_blank l = false) ->
  skip_blank (blanks ++ rest) = rest.
Proof.
  intros Hb Hr. induction Hb as [|l blanks Hl _ IH]; simpl.
  - destruct rest as [|l rest]; [reflexivity|]. simpl.
    now rewrite (Hr l eq_refl).
  - now rewrite Hl.
Qed.

(** C5. When the outer loop stands at a line that the header pattern
    matches ([pre] being lines it has copied on its way there, [pre = []]
    the loop at the header itself), the header is not emitted; the lines
    after it are dropped while the running brace depth (opening minus
    closing braces, line by line, header included) is positive, up to and
    including the line at which it is no longer positive, whatever braces
    lie in between; the blank lines that follow are dropped too; the scan
    goes on with the next line. *)
Theorem scan_removes_block (pre : list str) (hdr lbl : str) (body blanks rest : list str) :
  Forall not_header pre ->
  match_s3_header hdr = Some lbl ->
  (forall n, n < length body ->
             (0 < brace_delta hdr + sum_delta (firstn n body))%Z) ->
  (brace_delta hdr + sum_delta body <= 0)%Z ->
  Forall (fun l => is_blank l = true) blanks ->
  (forall l, hd_error rest = Some l -> is_blank l = false) ->
  scan (pre ++ hdr :: body ++ blanks ++ rest) = pre ++ scan rest.
Proof.
  intros Hpre Hm Hopen Hclose Hblank Hrest.
  rewrite scan_app_no_header by assumption. f_equal.
  rewrite scan_cons, Hm.
  rewrite skip_block_closes by assumption.
  rewrite skip_blank_app by assumption. reflexivity.
Qed.

(** The removed half of the unterminated case: when the depth stays
    positive to the last line, everything from the header on is dropped. *)
Lemma scan_unterminated_removed pre hdr lbl body :
  Forall not_header pre ->
  match_s3_header hdr = Some lbl ->
  (forall n, n <= length body ->
             (0 < brace_delta hdr + sum_delta (firstn n body))%Z) ->
  scan (pre ++ hdr :: body) = pre.
Proof.
  intros Hpre Hm Hopen.
  rewrite scan_app_no_header by assumption.
  rewrite scan_cons, Hm, skip_block_unterminated by assumption.
  simpl. simp scan. apply app_nil_r.
Qed.

(** ** No header, no change *)

Lemma splitlines_forallb (q : char -> bool) s :
  forallb q s = true -> Forall (fun l => forallb q l = true) (splitlines s).
Proof.
  assert (H : forall n s, length s <= n -> forallb q s = true ->
                          Forall (fun l => forallb q l = true) (splitlines s)).
  { clear s. induction n as [|n IH]; intros [|c s] Hn Hq; simpl in *;
      try constructor; try lia.
    apply andb_true_iff in Hq. destruct Hq as [Hc Hs].
    destruct (is_linebreak c).
    - constructor; [reflexivity|].
      destruct (c =? CR)%N; [|apply IH; [lia|assumption]].
      destruct s as [|c' s'']; [constructor|].
      simpl in Hs. apply andb_true_iff in Hs. destruct Hs as [Hc' Hs''].
      destruct (c' =? LF)%N; apply IH; simpl in *; try lia; try assumption.
    - specialize (IH s ltac:(lia) Hs).
      destruct (splitlines s) as [|l ls].
      + repeat constructor. simpl. now rewrite Hc.
      + inversion IH; subst. constructor; [|assumption]. simpl.
        rewrite Hc. assumption. }
  exact (H (length s) s (le_n _)).
Qed.

Lemma join_space ls :
  Forall (fun l => forallb isspace l = true) ls -> forallb isspace (join ls) = true.
Proof.
  induction 1 as [|l ls Hl Hls IH]; [reflexivity|].
  destruct ls as [|l2 ls]; [exact Hl|].
  rewrite join_cons by discriminate. rewrite forallb_app, Hl. exact IH.
Qed.

Lemma join_splitlines_char c s :
  is_linebreak c = false -> join (splitlines (c :: s)) = c :: join (splitlines s).
Proof.
  intros H. rewrite (splitlines_char c s H).
  destruct (splitlines s) as [|l ls]; [reflexivity|apply join_cons_char].
Qed.

Lemma rstrip_cons c s :
  rstrip (c :: s) =
  if forallb isspace s then (if isspace c then [] else [c]) else c :: rstrip s.
Proof.
  change (c :: s) with ([c] ++ s).
  destruct (forallb isspace s) eqn:E.
  - rewrite rstrip_app_space by assumption.
    unfold rstrip. simpl. destruct (isspace c); reflexivity.
  - now rewrite rstrip_app_keep.
Qed.

(** A text without trailing whitespace and with newlines as its only line
    boundaries comes back from splitting, joining and stripping, whatever
    whitespace followed it. *)
Lemma rstrip_join_splitlines_app r : forall w,
  lf_only r = true -> rstrip r = r -> forallb isspace w = true ->
  rstrip (join (splitlines (r ++ w))) = r.
Proof.
  induction r as [|c r IH]; intros w Hlf Hr Hw.
  - apply rstrip_all_space, join_space, splitlines_forallb, Hw.
  - simpl in Hlf. apply andb_true_iff in Hlf. destruct Hlf as [Hc Hlf].
    rewrite rstrip_cons in Hr.
    destruct (forallb isspace r) eqn:Er.
    + (* [c] is the last character *)
      destruct (isspace c) eqn:Ec; [discriminate Hr|].
      injection Hr as Hr. subst r. simpl app.
      rewrite join_splitlines_char by now apply not_space_not_linebreak.
      rewrite rstrip_cons.
      rewrite (join_space _ (splitlines_forallb isspace w Hw)), Ec. reflexivity.
    + injection Hr as Hr. specialize (IH w Hlf Hr Hw).
      assert (Hx : forallb isspace (join (splitlines (r ++ w))) = false).
      { destruct (forallb isspace (join (splitlines (r ++ w)))) eqn:E; [|reflexivity].
        apply rstrip_all_space in E. rewrite IH in E. subst r. discriminate Er. }
      simpl app. destruct (is_linebreak c) eqn:Hlb.
      * assert (c = LF) by (simpl in Hc; apply N.eqb_eq; exact Hc). subst c.
        rewrite splitlines_lf.
        assert (Hne : splitlines (r ++ w) <> []).
        { intros E. apply splitlines_eq_nil, app_eq_nil in E.
          destruct E as [-> _]. discriminate Er. }
        rewrite join_cons by exact Hne. cbn [app].
        rewrite rstrip_cons, Hx, IH. reflexivity.
      * rewrite join_splitlines_char by assumption.
        rewrite rstrip_cons, Hx, IH. reflexivity.
Qed.

(** C8 (as amended). When no line of the text is matched by the header
    pattern and, before its trailing whitespace, the only line boundary of
    the text is the newline character, the result is the text with its
    trailing whitespace stripped and one newline appended. *)
Theorem strip_no_header_normalizes (caddyfile : str) :
  lf_only (rstrip caddyfile) = true ->
  Forall not_header (splitlines caddyfile) ->
  _strip_s3_vhost_from_caddyfile caddyfile = rstrip caddyfile ++ [LF].
Proof.
  intros Hlf Hno. unfold _strip_s3_vhost_from_caddyfile.
  rewrite scan_no_header by assumption. f_equal.
  destruct (rstrip_split caddyfile) as [w [Hs Hw]].
  rewrite Hs at 1.
  apply rstrip_join_splitlines_app; [assumption|apply rstrip_idem|assumption].
Qed.

(** ** Idempotence of the stripper *)

Lemma rstrip_lines_cons l ls :
  rstrip_lines (l :: ls) =
  match rstrip_lines ls with
  | [] => match rstrip l with [] => [] | _ :: _ => [rstrip l] end
  | _ :: _ => l :: rstrip_lines ls
  end.
Proof. reflexivity. Qed.

Lemma rstrip_last_line l :
  rstrip l = join (match rstrip l with [] => [] | _ :: _ => [rstrip l] end)
  /\ (match rstrip l with [] => [] | _ :: _ => [rstrip l] end = []
      <-> forallb isspace l = true).
Proof.
  destruct (rstrip l) as [|c r] eqn:E; simpl; split; try reflexivity.
  - split; [intros _; now apply rstrip_nil_all_space|reflexivity].
  - split; [discriminate|]. intros H. apply rstrip_all_space in H. congruence.
Qed.

Lemma rstrip_join ls :
  rstrip (join ls) = join (rstrip_lines ls)
  /\ (rstrip_lines ls = [] <-> forallb isspace (join ls) = true).
Proof.
  induction ls as [|l ls [IH Hnil]]; [simpl; tauto|].
  rewrite rstrip_lines_cons.
  destruct ls as [|l2 ls].
  - simpl rstrip_lines. simpl join at 1 3. apply rstrip_last_line.
  - rewrite join_cons by discriminate.
    destruct (forallb isspace (join (l2 :: ls))) eqn:Ews.
    + rewrite (proj2 Hnil eq_refl).
      rewrite rstrip_app_space by (simpl; exact Ews).
      rewrite forallb_app. cbn [forallb]. change (isspace LF) with true.
      rewrite Ews, andb_true_r.
      apply rstrip_last_line.
    + destruct (rstrip_lines (l2 :: ls)) as [|x xs] eqn:Erl.
      * destruct Hnil as [Hnil _]. specialize (Hnil eq_refl). discriminate.
      * split.
        -- rewrite rstrip_app_keep by (simpl; exact Ews).
           change (LF :: join (l2 :: ls)) with ([LF] ++ join (l2 :: ls)).
           rewrite rstrip_app_keep by exact Ews.
           rewrite IH. reflexivity.
        -- split; [discriminate|]. rewrite forallb_app. cbn [forallb].
           rewrite Ews, !andb_false_r. discriminate.
Qed.

Lemma rstrip_lines_Forall (P : str -> Prop) ls :
  (forall l, P l -> P (rstrip l)) -> Forall P ls -> Forall P (rstrip_lines ls).
Proof.
  intros HP. induction 1 as [|l ls Hl _ IH]; [constructor|].
  rewrite rstrip_lines_cons. destruct (rstrip_lines ls) as [|x xs].
  - destruct (rstrip l) eqn:E; constructor; [|constructor]. rewrite <- E. auto.
  - constructor; assumption.
Qed.

Lemma no_linebreak_rstrip l : no_linebreak l = true -> no_linebreak (rstrip l) = true.
Proof.
  intros H. destruct (rstrip_split l) as [w [Hl _]]. rewrite Hl in H.
  unfold no_linebreak in *. rewrite forallb_app in H.
  now apply andb_true_iff in H.
Qed.

(** C10. Applying [_strip_s3_vhost_from_caddyfile] to its own result
    returns that result. *)
Theorem strip_idempotent (caddyfile : str) :
  _strip_s3_vhost_from_caddyfile (_strip_s3_vhost_from_caddyfile caddyfile)
  = _strip_s3_vhost_from_caddyfile caddyfile.
Proof.
  unfold _strip_s3_vhost_from_caddyfile at 2 3.
  set (out := scan (splitlines caddyfile)).
  assert (Hout : Forall (fun l => not_header l /\ In l (splitlines caddyfile)) out)
    by apply scan_keeps_plain_lines.
  assert (Hplain : Forall not_header (rstrip_lines out)).
  { apply rstrip_lines_Forall; [apply not_header_rstrip|].
    eapply Forall_impl; [|exact Hout]. simpl. tauto. }
  assert (Hnolb : Forall (fun l => no_linebreak l = true) (rstrip_lines out)).
  { apply rstrip_lines_Forall; [apply no_linebreak_rstrip|].
    eapply Forall_impl; [|exact Hout]. simpl. intros l [_ Hin].
    pose proof (splitlines_no_linebreak caddyfile) as H.
    rewrite Forall_forall in H. now apply H. }
  destruct (rstrip_join out) as [Ejoin _].
  rewrite Ejoin.
  destruct (rstrip_lines out) as [|x xs] eqn:Erl.
  - vm_compute. reflexivity.
  - unfold _strip_s3_vhost_from_caddyfile.
    rewrite splitlines_join by (assumption || discriminate).
    rewrite scan_no_header by assumption.
    rewrite <- Ejoin, rstrip_idem. reflexivity.
Qed.

(** ** [_parse_env]: the last definition of a key wins *)

Lemma dict_get_set_same k v d : dict_get k (dict_set k v d) = Some v.
Proof.
  induction d as [|[k' v'] d IH]; simpl.
  - destruct (str_eq_dec k k); congruence.
  - destruct (str_eq_dec k k') as [E|E]; simpl.
    + destruct (str_eq_dec k k'); congruence.
    + destruct (str_eq_dec k k'); congruence.
Qed.

Lemma dict_get_set_other k k' v d :
  k <> k' -> dict_get k (dict_set k' v d) = dict_get k d.
Proof.
  intros Hk. induction d as [|[k2 v2] d IH]; simpl.
  - destruct (str_eq_dec k k'); congruence.
  - destruct (str_eq_dec k' k2) as [E|E]; simpl.
    + subst. destruct (str_eq_dec k k2); congruence.
    + destruct (str_eq_dec k k2); congruence.
Qed.

Lemma parse_env_fold_other k after : forall d,
  (forall l v', In l after -> parse_line l <> Some (k, v')) ->
  dict_get k (fold_left parse_env_step after d) = dict_get k d.
Proof.
  induction after as [|l after IH]; intros d H; [reflexivity|].
  simpl. rewrite IH by (intros; apply H; now right).
  unfold parse_env_step. destruct (parse_line l) as [[k' v']|] eqn:E; [|reflexivity].
  apply dict_get_set_other. intros ->. apply (H l v'); [now left|assumption].
Qed.

Lemma parse_env_fold_last k v before line after d :
  parse_line line = Some (k, v) ->
  (forall l v', In l after -> parse_line l <> Some (k, v')) ->
  dict_get k (fold_left parse_env_step (before ++ line :: after) d) = Some v.
Proof.
  intros Hl Hafter. rewrite fold_left_app. simpl.
  rewrite parse_env_fold_other by assumption.
  unfold parse_env_step at 1. rewrite Hl. apply dict_get_set_same.
Qed.

Lemma split_once_at kraw vraw :
  ~ In EQ kraw -> split_once (kraw ++ EQ :: vraw) = (kraw, vraw).
Proof.
  intros H. unfold split_once.
  assert (Hk : forallb (fun c => negb (c =? EQ)%N) kraw = true).
  { apply forallb_forall. intros x Hx. apply negb_true_iff, N.eqb_neq. intros ->. contradiction. }
  rewrite take_while_app, drop_while_app by (assumption || reflexivity).
  reflexivity.
Qed.

Lemma parse_line_key_value raw kraw vraw :
  strip raw = kraw ++ EQ :: vraw -> ~ In EQ kraw ->
  hd_error (strip raw) <> Some HASH ->
  parse_line raw = Some (strip kraw, unquote (strip vraw)).
Proof.
  intros Hs Hk Hh. unfold parse_line. rewrite Hs in *.
  destruct (kraw ++ EQ :: vraw) as [|c rest] eqn:E.
  - destruct kraw; discriminate.
  - destruct (c =? HASH)%N eqn:Ec.
    + apply N.eqb_eq in Ec. subst. now destruct Hh.
    + rewrite <- E.
      assert (Hex : existsb (N.eqb EQ) (kraw ++ EQ :: vraw) = true).
      { apply existsb_exists. exists EQ. split; [|reflexivity].
        apply in_or_app. right. now left. }
      rewrite Hex, split_once_at by assumption. reflexivity.
Qed.

Lemma unquote_quoted q inner :
  q = DQ \/ q = SQ -> unquote (q :: inner ++ [q]) = inner.
Proof.
  intros Hq.
  assert (Hlen : (2 <=? length (q :: inner ++ [q])) = true).
  { apply Nat.leb_le. simpl. rewrite length_app. simpl. lia. }
  assert (Hlast : last (q :: inner ++ [q]) 0%N = q).
  { change (q :: inner ++ [q]) with ((q :: inner) ++ [q]). apply last_last. }
  unfold unquote. rewrite Hlen, Hlast. cbn [nth tl]. rewrite removelast_last.
  destruct Hq; subst; reflexivity.
Qed.

(** C9. [_parse_env] binds a key to the value of the last key-value line
    that defines it, stripped of surrounding whitespace; when that value
    starts and ends with the same quote character, double or single, the
    binding is the text between the two quotes. *)
Theorem parse_env_last_definition_wins
  (content : str) (before : list str) (line : str) (after : list str)
  (kraw vraw : str) :
  splitlines content = before ++ line :: after ->
  strip line = kraw ++ EQ :: vraw ->
  ~ In EQ kraw ->
  hd_error (strip line) <> Some HASH ->
  (forall l v', In l after -> parse_line l <> Some (strip kraw, v')) ->
  dict_get (strip kraw) (_parse_env content) = Some (unquote (strip vraw))
  /\ forall q inner,
       q = DQ \/ q = SQ -> strip vraw = q :: inner ++ [q] ->
       dict_get (strip kraw) (_parse_env content) = Some inner.
Proof.
  intros Hlines Hs Hk Hh Hafter.
  assert (H : dict_get (strip kraw) (_parse_env content) = Some (unquote (strip vraw))).
  { unfold _parse_env. rewrite Hlines.
    apply parse_env_fold_last; [|assumption].
    now apply parse_line_key_value. }
  split; [exact H|].
  intros q inner Hq Hv. rewrite H, Hv, unquote_quoted by assumption. reflexivity.
Qed.

(** ** The key-value pattern *)

(** Every line of the shape the pattern describes is matched, with the
    key as group 1. *)
Lemma match_env_key_intro w1 k w2 t :
  forallb isspace w1 = true -> is_ident k = true ->
  forallb isspace w2 = true -> env_tail_ok t = true ->
  match_env_key (w1 ++ k ++ w2 ++ EQ :: t) = Some k.
Proof.
  intros H1 Hk H2 Ht. destruct k as [|c cs]; [discriminate|].
  simpl in Hk. apply andb_true_iff in Hk. destruct Hk as [Hc Hcs].
  unfold match_env_key. rewrite lstrip_app_space by assumption.
  rewrite lstrip_id
    by (simpl; apply ident_char_not_space, ident_start_char, Hc).
  cbn [app]. rewrite Hc.
  assert (Hs : stops is_ident_char (w2 ++ EQ :: t)).
  { apply stops_space_then; [assumption|reflexivity|].
    intros x Hx. destruct (is_ident_char x) eqn:E; [|reflexivity].
    apply ident_char_not_space in E. congruence. }
  rewrite take_while_app, drop_while_app, (drop_while_id _ _ Hs) by assumption.
  rewrite lstrip_app_space, lstrip_id by (assumption || reflexivity).
  rewrite N.eqb_refl, Ht. reflexivity.
Qed.

Lemma match_env_key_ident line k : match_env_key line = Some k -> is_ident k = true.
Proof.
  unfold match_env_key. destruct (lstrip line) as [|c s]; [discriminate|].
  destruct (is_ident_start c) eqn:Hc; [|discriminate].
  destruct (lstrip (drop_while is_ident_char s)) as [|e t]; [discriminate|].
  destruct ((e =? EQ)%N && env_tail_ok t); [|discriminate].
  intros H. injection H as <-. simpl. now rewrite Hc, take_while_all.
Qed.

Lemma no_linebreak_no_lf t :
  no_linebreak t = true -> forallb (fun c => negb (c =? LF)%N) t = true.
Proof.
  unfold no_linebreak. rewrite !forallb_forall. intros H x Hx.
  specialize (H x Hx). apply negb_true_iff in H. apply negb_true_iff, N.eqb_neq.
  intros ->. discriminate.
Qed.

Lemma env_tail_ok_no_linebreak t : no_linebreak t = true -> env_tail_ok t = true.
Proof.
  intros H. unfold env_tail_ok, lstrip.
  rewrite drop_while_all; [reflexivity|].
  apply forallb_drop_while. now apply no_linebreak_no_lf.
Qed.

Lemma ident_no_linebreak k : is_ident k = true -> no_linebreak k = true.
Proof.
  destruct k as [|c cs]; [discriminate|]. simpl. intros H.
  apply andb_true_iff in H. destruct H as [Hc Hcs].
  rewrite (ident_char_not_linebreak c (ident_start_char c Hc)). simpl.
  unfold no_linebreak. rewrite forallb_forall in *. intros x Hx.
  now rewrite (ident_char_not_linebreak x (Hcs x Hx)).
Qed.

Lemma fmt_no_linebreak k v :
  is_ident k = true -> no_linebreak v = true -> no_linebreak (fmt k v) = true.
Proof.
  intros Hk Hv. apply ident_no_linebreak in Hk. unfold fmt, no_linebreak in *.
  rewrite forallb_app, Hk.
  cbn [forallb]. rewrite forallb_app, Hv. reflexivity.
Qed.

Lemma fmt_matches k v :
  is_ident k = true -> no_linebreak v = true -> match_env_key (fmt k v) = Some k.
Proof.
  intros Hk Hv. apply (match_env_key_intro [] k [] (DQ :: v ++ [DQ])); auto.
  apply env_tail_ok_no_linebreak. unfold no_linebreak in *. cbn [forallb].
  rewrite forallb_app, Hv. reflexivity.
Qed.

(** ** Idempotence of [_format_env] *)

Lemma dict_get_In d k v : dict_get k d = Some v -> In (k, v) d.
Proof.
  induction d as [|[k' v'] d IH]; simpl; [discriminate|].
  destruct (str_eq_dec k k') as [E|E]; intros H.
  - left. congruence.
  - right. auto.
Qed.

Section Idempotence.
Variable d : dict.
Hypothesis Hd : well_formed_updates d.

Lemma rewrite_line_cases l :
  (rewrite_line d l = l) \/
  (exists k v, match_env_key l = Some k /\ dict_get k d = Some v /\
               rewrite_line d l = fmt k v /\
               is_ident k = true /\ no_linebreak v = true).
Proof.
  unfold rewrite_line. destruct (match_env_key l) as [k|] eqn:Hm; [|now left].
  destruct (dict_get k d) as [v|] eqn:Hg; [|now left].
  right. exists k, v. repeat split; auto.
  - eapply match_env_key_ident; eauto.
  - apply dict_get_In in Hg. now apply Hd in Hg.
Qed.

Lemma rewrite_line_key l : match_env_key (rewrite_line d l) = match_env_key l.
Proof.
  destruct (rewrite_line_cases l) as [->|(k & v & Hm & _ & -> & Hk & Hv)];
    [reflexivity|].
  rewrite Hm. now apply fmt_matches.
Qed.

Lemma rewrite_line_idem l : rewrite_line d (rewrite_line d l) = rewrite_line d l.
Proof.
  destruct (rewrite_line_cases l) as [E|(k & v & Hm & Hg & E & Hk & Hv)].
  - now rewrite !E.
  - rewrite E. unfold rewrite_line. now rewrite fmt_matches, Hg.
Qed.

Lemma rewrite_line_no_linebreak l :
  no_linebreak l = true -> no_linebreak (rewrite_line d l) = true.
Proof.
  intros H. destruct (rewrite_line_cases l) as [->|(k & v & _ & _ & -> & Hk & Hv)];
    [assumption|]. now apply fmt_no_linebreak.
Qed.

Lemma has_key_rewrite k l : has_key k (rewrite_line d l) = has_key k l.
Proof. unfold has_key. now rewrite rewrite_line_key. Qed.

(** The appended line of a key of [d]. *)
Lemma appended_line k :
  In k (keys d) ->
  let line := fmt k (getitem d k) in
  match_env_key line = Some k /\ rewrite_line d line = line /\
  no_linebreak line = true.
Proof.
  intros Hin. destruct (in_keys_dict_get d k Hin) as [v Hg].
  unfold getitem. rewrite Hg. simpl.
  apply dict_get_In in Hg as Hkv. destruct (Hd _ _ Hkv) as [Hk Hv].
  repeat split.
  - now apply fmt_matches.
  - unfold rewrite_line. now rewrite fmt_matches, Hg.
  - now apply fmt_no_linebreak.
Qed.

Lemma appendix_fixed ks :
  incl ks (keys d) ->
  map (rewrite_line d) (appendix d ks) = appendix d ks
  /\ Forall (fun l => no_linebreak l = true) (appendix d ks)
  /\ forall k, In k ks -> existsb (has_key k) (appendix d ks) = true.
Proof.
  intros Hincl. destruct ks as [|k0 ks]; [simpl; intuition|].
  unfold appendix. remember (k0 :: ks) as ks' eqn:Eks. clear Eks.
  assert (Hmap : map (rewrite_line d) (map (fun k => fmt k (getitem d k)) ks')
                 = map (fun k => fmt k (getitem d k)) ks').
  { rewrite map_map. apply map_ext_in. intros k Hk.
    apply (appended_line k (Hincl k Hk)). }
  split; [|split].
  - cbn [map]. rewrite Hmap. reflexivity.
  - repeat constructor. apply Forall_forall. intros l Hl.
    apply in_map_iff in Hl. destruct Hl as [k [<- Hk]].
    apply (appended_line k (Hincl k Hk)).
  - intros k Hk. apply existsb_exists. exists (fmt k (getitem d k)). split.
    + right. right. apply in_map_iff. eauto.
    + apply has_key_true. apply (appended_line k (Hincl k Hk)).
Qed.

Lemma missing_keys_incl lines : incl (missing_keys d lines) (keys d).
Proof. intros k Hk. unfold missing_keys in Hk. now apply filter_In in Hk. Qed.

(** The lines at the [return]: one more pass leaves them as they are. *)
Lemma format_env_lines_fixed lines :
  Forall (fun l => no_linebreak l = true) lines ->
  let out := map (rewrite_line d) lines ++ appendix d (missing_keys d lines) in
  map (rewrite_line d) out = out
  /\ missing_keys d out = []
  /\ Forall (fun l => no_linebreak l = true) out.
Proof.
  intros Hlines out.
  destruct (@appendix_fixed (missing_keys d lines) (missing_keys_incl lines))
    as (Hmap & Hnolb & Hkeys).
  split; [|split].
  - unfold out. rewrite map_app, Hmap, map_map. f_equal.
    apply map_ext. apply rewrite_line_idem.
  - unfold missing_keys at 1.
    assert (Hall : forall k, In k (keys d) ->
                             negb (existsb (has_key k) out) = false).
    { intros k Hk. apply negb_false_iff. unfold out. rewrite existsb_app.
      destruct (existsb (has_key k) lines) eqn:Hin.
      - apply existsb_exists in Hin. destruct Hin as [l [Hl Hkl]].
        apply orb_true_iff. left. apply existsb_exists.
        exists (rewrite_line d l). split; [now apply in_map|].
        now rewrite has_key_rewrite.
      - apply orb_true_iff. right. apply Hkeys.
        unfold missing_keys. apply filter_In. now rewrite Hin. }
    induction (keys d) as [|k ks IH]; [reflexivity|].
    simpl. rewrite (Hall k) by now left. apply IH. intros; apply Hall; now right.
  - unfold out. apply Forall_app. split; [|assumption].
    apply Forall_forall. intros l Hl. apply in_map_iff in Hl.
    destruct Hl as [l0 [<- Hl0]]. apply rewrite_line_no_linebreak.
    rewrite Forall_forall in Hlines. auto.
Qed.

End Idempotence.

(** C3 (as amended). For an update set whose keys are identifiers of the
    key-value pattern and whose values contain no line boundary, formatting
    the result of [_format_env] again with the same update set returns it
    unchanged; in particular no second marker section is appended. *)
Theorem format_env_idempotent (d : dict) (original : str) :
  well_formed_updates d ->
  _format_env d (_format_env d original) = _format_env d original.
Proof.
  intros Hd. unfold _format_env at 2 3.
  rewrite (format_env_lines_closed d original).
  pose proof (format_env_lines_fixed d Hd _ (splitlines_no_linebreak original))
    as (Hmap & Hmiss & Hnolb).
  remember (map (rewrite_line d) (splitlines original) ++
            appendix d (missing_keys d (splitlines original))) as out eqn:Eout.
  destruct out as [|l out'].
  - symmetry in Eout. apply app_eq_nil in Eout. destruct Eout as [Elines Eapp].
    apply map_eq_nil in Elines. rewrite Elines in Eapp.
    assert (Hk : keys d = []).
    { destruct (keys d) as [|k ks] eqn:Ek; [reflexivity|].
      unfold missing_keys in Eapp. rewrite Ek in Eapp. discriminate Eapp. }
    destruct d as [|kv d']; [|discriminate Hk]. vm_compute. reflexivity.
  - unfold _format_env. rewrite format_env_lines_closed.
    rewrite splitlines_join by (assumption || discriminate).
    rewrite Hmap, Hmiss. simpl appendix. now rewrite app_nil_r.
Qed.

(** ** Concrete runs *)

(** A property of every line of a text that is known in full. *)
Ltac each_line :=
  apply Forall_forall; intros ?l Hl; vm_compute in Hl;
  repeat (destruct Hl as [<-|Hl]; [vm_compute; reflexivity|]); destruct Hl.

(** Two definitions of the key A, and an update of A. *)
Definition dup_text : str := text_of [py "A=1"; py "A=2"].
Definition dup_updates : dict := [(py "A", py "9")].

(** C1, counterexample. Both lines define the key A, which the update set
    holds; the second line is not passed through as it was, it is rewritten
    like the first. *)
Lemma format_env_duplicate_not_passed_through :
  splitlines dup_text = [py "A=1"; py "A=2"]
  /\ match_env_key (py "A=1") = Some (py "A")
  /\ match_env_key (py "A=2") = Some (py "A")
  /\ dict_mem (py "A") dup_updates = true
  /\ _format_env dup_updates dup_text
     = text_of [fmt (py "A") (py "9"); fmt (py "A") (py "9")]
  /\ nth_error (format_env_lines dup_updates dup_text) 1 <> Some (py "A=2").
Proof. repeat split; try (vm_compute; reflexivity). vm_compute. discriminate. Qed.

Lemma format_env_rewrites_every_definition_witness :
  nth_error (splitlines dup_text) 1 = Some (py "A=2")
  /\ nth_error (format_env_lines dup_updates dup_text) 1
     = Some (fmt (py "A") (py "9")).
Proof.
  split; [vm_compute; reflexivity|].
  apply (@format_env_rewrites_every_definition
           dup_updates dup_text 1 (py "A=2") (py "A") (py "9"));
    vm_compute; reflexivity.
Defined.

(** A key that is no identifier of the key-value pattern. *)
Definition dotted_updates : dict := [(py "my.key", py "v")].

(** C3, counterexample. The appended line of the key my.key does not have
    the key-value shape, so the second pass appends the marker section
    again. *)
Lemma format_env_not_idempotent :
  _format_env dotted_updates (text_of [py "A=1"])
  = text_of [py "A=1"; py ""; marker; fmt (py "my.key") (py "v")]
  /\ _format_env dotted_updates (_format_env dotted_updates (text_of [py "A=1"]))
     = text_of [py "A=1"; py ""; marker; fmt (py "my.key") (py "v");
                py ""; marker; fmt (py "my.key") (py "v")]
  /\ _format_env dotted_updates (_format_env dotted_updates (text_of [py "A=1"]))
     <> _format_env dotted_updates (text_of [py "A=1"]).
Proof. repeat split; try (vm_compute; reflexivity). vm_compute. discriminate. Qed.

(** The other condition of the amended claim: a value with a line boundary
    is cut in two by the next pass, which then keeps the second half as a
    line of its own. *)
Example format_env_not_idempotent_value :
  let d := [(py "A", py "x" ++ [LF] ++ py "y")] in
  _format_env d (_format_env d (text_of [py "A=1"]))
  <> _format_env d (text_of [py "A=1"]).
Proof. vm_compute. discriminate. Qed.

Definition two_updates : dict := [(py "A", py "9"); (py "C", py "3")].

Lemma format_env_idempotent_witness :
  well_formed_updates two_updates
  /\ _format_env two_updates (_format_env two_updates dup_text)
     = _format_env two_updates dup_text.
Proof.
  assert (H : well_formed_updates two_updates).
  { intros k v [E|[E|[]]]; injection E as <- <-; split; vm_compute; reflexivity. }
  split; [exact H|]. apply (@format_env_idempotent two_updates dup_text H).
Defined.

(** Two comment lines, the first ended by a carriage return and a newline. *)
Definition crlf_env : str := py "# a" ++ [CR; LF] ++ py "# b" ++ [LF].

(** C4, counterexample. Every line is opaque and the update set is empty,
    yet the carriage return in the middle of the text is gone: the result
    differs from the input by more than newlines at the end. *)
Lemma format_env_empty_updates_changes_crlf :
  Forall (fun l => match_env_key l = None) (splitlines crlf_env)
  /\ _format_env [] crlf_env = text_of [py "# a"; py "# b"]
  /\ drop_trailing_newlines (_format_env [] crlf_env)
     <> drop_trailing_newlines crlf_env.
Proof.
  repeat split.
  - each_line.
  - vm_compute. discriminate.
Qed.

Definition opaque_env : str := text_of [py "# comment"; py ""; py "not a definition"].

Lemma format_env_empty_updates_roundtrip_witness :
  lf_only opaque_env = true /\ _format_env [] opaque_env = opaque_env.
Proof.
  split; [vm_compute; reflexivity|].
  apply (@format_env_empty_updates_roundtrip opaque_env). vm_compute. reflexivity.
Defined.

(** A site block that holds a block whose header line has the s3 shape. *)
Definition nested_caddyfile : str :=
  text_of [py "example.com {"; py "  s3.internal {"; py "    respond 404";
           py "  }"; py "  reverse_proxy app:3000"; py "}"].

(** C2, the code at the failing input. The header of the outer block is not
    matched, the second line is matched at depth 1, and the inner block is
    removed from the retained one. *)
Theorem strip_removes_nested_header :
  match_s3_header (py "example.com {") = None
  /\ match_s3_header (py "  s3.internal {") = Some (py "s3.internal")
  /\ _strip_s3_vhost_from_caddyfile nested_caddyfile
     = text_of [py "example.com {"; py "  reverse_proxy app:3000"; py "}"].
Proof. repeat split; vm_compute; reflexivity. Qed.

(** The same site block, never closed. *)
Definition unterminated_caddyfile : str :=
  text_of [py "example.com {"; py "  s3.internal {"; py "  }";
           py "  reverse_proxy app:3000"].

(** C6, the code at the failing input. The block of example.com is open
    after every line up to the end of the input and its label is not one to
    remove, yet two of its lines are missing from the result. *)
Theorem strip_unterminated_retained_block_loses_lines :
  match_s3_header (py "example.com {") = None
  /\ forallb (fun n => (0 <? sum_delta (firstn n (splitlines unterminated_caddyfile)))%Z)
       [1; 2; 3; 4] = true
  /\ _strip_s3_vhost_from_caddyfile unterminated_caddyfile
     = text_of [py "example.com {"; py "  reverse_proxy app:3000"].
Proof. repeat split; vm_compute; reflexivity. Qed.

(** A removed block with a nested block inside, two blank lines after it. *)
Definition block_pre : list str :=
  [py "example.com {"; py "  reverse_proxy app:3000"; py "}"].
Definition block_body : list str :=
  [py "  @m {"; py "    path /x"; py "  }"; py "  reverse_proxy minio:9000"; py "}"].
Definition block_rest : list str := [py "other.com {"; py "}"].

Lemma scan_removes_block_witness :
  scan (block_pre ++ py "s3.example.com {" :: block_body ++ [py ""; py "  "] ++ block_rest)
  = block_pre ++ block_rest.
Proof.
  change (block_pre ++ block_rest) with (block_pre ++ scan block_rest).
  apply (@scan_removes_block block_pre (py "s3.example.com {") (py "s3.example.com")
           block_body [py ""; py "  "] block_rest).
  - repeat constructor.
  - vm_compute. reflexivity.
  - intros n Hn.
    do 5 (destruct n as [|n]; [vm_compute; reflexivity|]).
    simpl in Hn. lia.
  - vm_compute. discriminate.
  - repeat constructor.
  - intros l Hl. injection Hl as <-. vm_compute. reflexivity.
Defined.

(** A Caddyfile with carriage returns before its newlines. *)
Definition crlf_caddyfile : str :=
  py "example.com {" ++ [CR; LF] ++ py "}" ++ [CR; LF].

(** C8, counterexample. No line is a header, yet the result is not the
    input with its trailing whitespace replaced by one newline: the
    carriage return after the first line is gone. *)
Lemma strip_no_header_changes_crlf :
  Forall not_header (splitlines crlf_caddyfile)
  /\ _strip_s3_vhost_from_caddyfile crlf_caddyfile
     = text_of [py "example.com {"; py "}"]
  /\ _strip_s3_vhost_from_caddyfile crlf_caddyfile
     <> rstrip crlf_caddyfile ++ [LF].
Proof.
  repeat split.
  - each_line.
  - vm_compute. discriminate.
Qed.

Definition plain_caddyfile : str :=
  text_of [py "example.com {"; py "  reverse_proxy app:3000"; py "}  "; py ""].

Lemma strip_no_header_normalizes_witness :
  lf_only (rstrip plain_caddyfile) = true
  /\ _strip_s3_vhost_from_caddyfile plain_caddyfile
     = text_of [py "example.com {"; py "  reverse_proxy app:3000"; py "}"].
Proof.
  split; [vm_compute; reflexivity|].
  change (text_of [py "example.com {"; py "  reverse_proxy app:3000"; py "}"])
    with (rstrip plain_caddyfile ++ [LF]).
  apply (@strip_no_header_normalizes plain_caddyfile).
  - vm_compute. reflexivity.
  - each_line.
Defined.

(** Two definitions of KEY, the last one quoted. *)
Definition quoted_line : str := py " KEY = " ++ [DQ] ++ py "new value" ++ [DQ] ++ py "  ".
Definition parse_sample : str :=
  text_of [py "KEY=old"; py "# note"; quoted_line; py "OTHER=1"].

Lemma parse_env_last_definition_wins_witness :
  dict_get (py "KEY") (_parse_env parse_sample) = Some (py "new value").
Proof.
  refine (proj2 (@parse_env_last_definition_wins parse_sample
                   [py "KEY=old"; py "# note"] quoted_line [py "OTHER=1"]
                   (py "KEY ") (py " " ++ [DQ] ++ py "new value" ++ [DQ])
                   _ _ _ _ _) DQ (py "new value") _ _).
  - vm_compute. reflexivity.
  - vm_compute. reflexivity.
  - intros H. vm_compute in H.
    repeat (destruct H as [H|H]; [discriminate H|]). exact H.
  - vm_compute. discriminate.
  - intros l v' [<-|[]]. vm_compute. discriminate.
  - now left.
  - vm_compute. reflexivity.
Defined.

(** A known key is rewritten in place, an unknown one is appended after
    the marker, everything else stays. *)
Example format_env_update_and_append :
  _format_env [(py "B", py "9"); (py "C", py "3")]
    (text_of [py "A=1"; py "  B = old  "; py "# comment"])
  = text_of [py "A=1"; fmt (py "B") (py "9"); py "# comment"; py ""; marker;
             fmt (py "C") (py "3")].
Proof. vm_compute. reflexivity. Qed.

(** The removal example of the script's purpose: the s3 host block goes,
    the main site stays. *)
Example strip_simple :
  _strip_s3_vhost_from_caddyfile
    (text_of [py "example.com {"; py "  reverse_proxy app:3000"; py "}";
              py "s3.example.com {"; py "  reverse_proxy minio:9000"; py "}"])
  = text_of [py "example.com {"; py "  reverse_proxy app:3000"; py "}"].
Proof. vm_compute. reflexivity. Qed.

(** * Further properties of the script *)

(** ** [_require_env] *)

(** What a call of the script can come to: a value, or [SystemExit] with
    its message. *)
Inductive outcome (A : Type) : Type :=
| Returns (a : A)
| SystemExit (msg : str).
Arguments Returns {A} a.
Arguments SystemExit {A} msg.

(** [os.environ] as far as [get] reads it. *)
Definition environ := str -> option str.

(** [os.environ.get(name, "")] *)
Definition environ_get (env : environ) (name : str) : str :=
  match env name with Some raw => raw | None => [] end.

Definition _require_env (env : environ) (name : str) : outcome str :=
  let v := strip (environ_get env name) in
  match v with
  | [] => SystemExit (py "Missing env var: " ++ name)
  | _ :: _ => Returns v
  end.

Lemma rstrip_keeps_start t : stops isspace t -> stops isspace (rstrip t).
Proof.
  destruct t as [|c t]; [intros _; exact I|]. simpl. intros Hc.
  rewrite rstrip_cons, Hc. destruct (forallb isspace t); simpl; assumption.
Qed.

Lemma strip_stops s : stops isspace (strip s).
Proof. apply rstrip_keeps_start, drop_while_stops. Qed.

Lemma strip_idem s : strip (strip s) = strip s.
Proof.
  unfold strip at 1. rewrite (lstrip_id _ (strip_stops s)).
  unfold strip. apply rstrip_idem.
Qed.

Lemma strip_nil_iff s : strip s = [] <-> forallb isspace s = true.
Proof.
  unfold strip. split; intros H.
  - apply rstrip_nil_all_space in H.
    pose proof (drop_while_stops isspace s) as Hs. fold (lstrip s) in Hs.
    destruct (lstrip s) as [|c t] eqn:E.
    + now apply drop_while_nil_all.
    + simpl in Hs, H. rewrite Hs in H. discriminate.
  - unfold lstrip. now rewrite drop_while_all.
Qed.

(** A text that [strip] leaves alone has whitespace at neither end. *)
Lemma stripped_ends s :
  strip s = s -> stops isspace s /\ rstrip s = s.
Proof.
  intros H. assert (Hs : stops isspace s) by (rewrite <- H; apply strip_stops).
  split; [assumption|]. unfold strip in H. now rewrite (lstrip_id _ Hs) in H.
Qed.

Lemma rstrip_last s :
  rstrip s = [] \/ exists r c, rstrip s = r ++ [c] /\ isspace c = false.
Proof.
  unfold rstrip. pose proof (drop_while_stops isspace (rev s)) as H.
  destruct (drop_while isspace (rev s)) as [|c t]; [now left|].
  right. exists (rev t), c. split; [reflexivity|exact H].
Qed.

(** X1. [_require_env] returns exactly when the variable is set to a text
    that is not all whitespace; what it returns is that text stripped, which
    is not empty and has whitespace at neither end.  In every other case it
    exits with the message naming the variable. *)
Theorem require_env_outcome (env : environ) (name : str) :
  (forall v, _require_env env name = Returns v <->
             exists raw, env name = Some raw /\ forallb isspace raw = false
                         /\ v = strip raw)
  /\ (forall v, _require_env env name = Returns v ->
                v <> [] /\ strip v = v /\ stops isspace v
                /\ exists r c, v = r ++ [c] /\ isspace c = false)
  /\ (forall msg, _require_env env name = SystemExit msg <->
                  msg = py "Missing env var: " ++ name
                  /\ (env name = None
                      \/ exists raw, env name = Some raw
                                     /\ forallb isspace raw = true)).
Proof.
  unfold _require_env, environ_get.
  destruct (env name) as [raw|] eqn:E.
  - destruct (strip raw) as [|c t] eqn:Es.
    + pose proof (proj1 (strip_nil_iff raw) Es) as Hws.
      split; [|split].
      * intros v. split; [discriminate|].
        intros (raw' & Hr & Hn & _). injection Hr as <-. congruence.
      * intros v H. discriminate.
      * intros msg. split.
        -- intros H. injection H as <-. split; [reflexivity|]. right. eauto.
        -- intros [-> _]. reflexivity.
    + assert (Hws : forallb isspace raw = false).
      { destruct (forallb isspace raw) eqn:Hw; [|reflexivity].
        apply strip_nil_iff in Hw. congruence. }
      split; [|split].
      * intros v. split.
        -- intros H. injection H as <-. exists raw. auto.
        -- intros (raw' & Hr & _ & ->). injection Hr as <-. now rewrite Es.
      * intros v H. injection H as <-. rewrite <- Es.
        split; [rewrite Es; discriminate|]. split; [apply strip_idem|].
        split; [apply strip_stops|].
        destruct (rstrip_last (lstrip raw)) as [H|H]; [|exact H].
        unfold strip in Es. congruence.
      * intros msg. split; [discriminate|].
        intros [_ [H|(raw' & Hr & Hw)]]; [discriminate|].
        injection Hr as <-. congruence.
  - split; [|split].
    + intros v. split; [discriminate|]. intros (raw & H & _). discriminate.
    + intros v H. discriminate.
    + intros msg. split.
      * intros H. injection H as <-. auto.
      * intros [-> _]. reflexivity.
Qed.

(** ** What [_parse_env] binds *)

(** The value that one line gives to the key [k], if it defines [k]. *)
Definition line_binding (k : str) (l : str) : option str :=
  match parse_line l with
  | Some (k', v) => if str_eq_dec k k' then Some v else None
  | None => None
  end.

(** The value that the last line defining [k] gives to it. *)
Fixpoint last_binding (k : str) (ls : list str) : option str :=
  match ls with
  | [] => None
  | l :: ls' =>
      match last_binding k ls' with
      | Some v => Some v
      | None => line_binding k l
      end
  end.

Definition or_else (a b : option str) : option str :=
  match a with Some v => Some v | None => b end.

Lemma parse_env_step_get k d l :
  dict_get k (parse_env_step d l) = or_else (line_binding k l) (dict_get k d).
Proof.
  unfold parse_env_step, line_binding.
  destruct (parse_line l) as [[k' v']|]; [|reflexivity].
  destruct (str_eq_dec k k') as [->|E]; simpl.
  - apply dict_get_set_same.
  - now apply dict_get_set_other.
Qed.

Lemma parse_env_fold_get k ls : forall d,
  dict_get k (fold_left parse_env_step ls d)
  = or_else (last_binding k ls) (dict_get k d).
Proof.
  induction ls as [|l ls IH]; intros d; [reflexivity|].
  simpl. rewrite IH, parse_env_step_get.
  destruct (last_binding k ls); reflexivity.
Qed.

Lemma parse_env_get k content :
  dict_get k (_parse_env content) = last_binding k (splitlines content).
Proof.
  unfold _parse_env. rewrite parse_env_fold_get. simpl.
  destruct (last_binding k (splitlines content)); reflexivity.
Qed.

Lemma last_binding_app k a b :
  last_binding k (a ++ b) = or_else (last_binding k b) (last_binding k a).
Proof.
  induction a as [|l a IH]; simpl.
  - destruct (last_binding k b); reflexivity.
  - rewrite IH. destruct (last_binding k b); simpl; [reflexivity|].
    destruct (last_binding k a); reflexivity.
Qed.

Lemma last_binding_none k ls :
  last_binding k ls = None <-> forall l, In l ls -> line_binding k l = None.
Proof.
  induction ls as [|l ls IH]; simpl; [intuition|].
  destruct (last_binding k ls) as [v|] eqn:E.
  - split; [discriminate|]. intros H.
    assert (Some v = None); [|discriminate].
    apply IH. intros l' Hl'. apply H. now right.
  - split.
    + intros H l' [<-|Hl']; [assumption|]. now apply IH.
    + intros H. apply H. now left.
Qed.

Lemma last_binding_some k v ls :
  last_binding k ls = Some v -> exists l, In l ls /\ line_binding k l = Some v.
Proof.
  induction ls as [|l ls IH]; simpl; [discriminate|].
  destruct (last_binding k ls) as [v'|] eqn:E.
  - intros H. injection H as ->. destruct (IH eq_refl) as [l' [Hin Hl']].
    exists l'. split; [now right|assumption].
  - intros H. exists l. split; [now left|assumption].
Qed.

(** When every line that defines [k] gives it the value [v] and one line
    does, the last binding is [v]. *)
Lemma last_binding_all k v ls :
  (forall l x, In l ls -> line_binding k l = Some x -> x = v) ->
  (exists l, In l ls /\ line_binding k l = Some v) ->
  last_binding k ls = Some v.
Proof.
  intros Hall [l [Hin Hl]].
  destruct (last_binding k ls) as [x|] eqn:E.
  - destruct (last_binding_some _ _ _ E) as [l' [Hin' Hl']].
    f_equal. eauto.
  - rewrite last_binding_none in E. rewrite (E l Hin) in Hl. discriminate.
Qed.

Lemma line_binding_some k v l :
  line_binding k l = Some v <-> parse_line l = Some (k, v).
Proof.
  unfold line_binding. destruct (parse_line l) as [[k' v']|].
  - destruct (str_eq_dec k k') as [->|E]; split; intros H; try congruence.
  - split; discriminate.
Qed.

(** The line [l] is a definition of the key [k] with the value [v]: once
    stripped it does not start with a hash sign, it holds an equals sign,
    [k] is what stands before the first one, stripped, and [v] what stands
    after it, stripped and without its pair of quotes. *)
Definition defines (l k v : str) : Prop :=
  exists kraw vraw,
    strip l = kraw ++ EQ :: vraw /\ ~ In EQ kraw /\
    hd_error (strip l) <> Some HASH /\
    k = strip kraw /\ v = unquote (strip vraw).

Lemma not_eq_prefix s :
  forallb (fun c => negb (c =? EQ)%N) s = true -> ~ In EQ s.
Proof.
  intros H Hin. rewrite forallb_forall in H. specialize (H EQ Hin). discriminate.
Qed.

Lemma split_once_spec s :
  existsb (N.eqb EQ) s = true ->
  exists kraw vraw,
    s = kraw ++ EQ :: vraw /\ ~ In EQ kraw /\ split_once s = (kraw, vraw).
Proof.
  intros Ex. unfold split_once.
  set (q := fun c : N => negb (c =? EQ)%N).
  pose proof (take_drop_while q s) as Htd.
  pose proof (take_while_all q s) as Hall.
  pose proof (drop_while_stops q s) as Hstop.
  destruct (drop_while q s) as [|e t].
  - rewrite app_nil_r in Htd. rewrite Htd in Hall.
    apply existsb_exists in Ex. destruct Ex as [x [Hx Hxe]].
    apply N.eqb_eq in Hxe. subst x. destruct (not_eq_prefix _ Hall Hx).
  - simpl in Hstop. unfold q in Hstop. apply negb_false_iff, N.eqb_eq in Hstop.
    subst e. exists (take_while q s), t.
    split; [symmetry; exact Htd|]. split; [now apply not_eq_prefix|reflexivity].
Qed.

Lemma parse_line_defines l k v : parse_line l = Some (k, v) <-> defines l k v.
Proof.
  split.
  - unfold parse_line, defines. intros H.
    destruct (strip l) as [|c rest]; [discriminate|].
    destruct (c =? HASH)%N eqn:Ec; [discriminate|].
    destruct (existsb (N.eqb EQ) (c :: rest)) eqn:Ex; [|discriminate].
    destruct (split_once_spec _ Ex) as (kraw & vraw & Hs & Hk & Hsplit).
    cbn [negb] in H. rewrite Hsplit in H. injection H as <- <-.
    exists kraw, vraw. repeat split; try assumption.
    simpl. intros Hh. injection Hh as ->. discriminate.
  - intros (kraw & vraw & Hs & Hk & Hh & -> & ->).
    now apply parse_line_key_value.
Qed.

(** X2. [_parse_env] binds a key exactly when some line of the text is a
    definition of it, and then to the value of one of those lines: it
    invents no binding, and a line that is blank, starts with a hash sign or
    holds no equals sign binds nothing. *)
Theorem parse_env_binds_defined_keys (content k : str) :
  (dict_get k (_parse_env content) = None <->
   forall l v, In l (splitlines content) -> ~ defines l k v)
  /\ (forall v, dict_get k (_parse_env content) = Some v ->
                exists l, In l (splitlines content) /\ defines l k v).
Proof.
  rewrite parse_env_get. split.
  - rewrite last_binding_none. split.
    + intros H l v Hin Hp. apply parse_line_defines, line_binding_some in Hp.
      rewrite (H l Hin) in Hp. discriminate.
    + intros H l Hin. destruct (line_binding k l) as [v|] eqn:E; [|reflexivity].
      apply line_binding_some, parse_line_defines in E. destruct (H l v Hin E).
  - intros v H. destruct (last_binding_some _ _ _ H) as [l [Hin Hl]].
    exists l. split; [assumption|]. now apply parse_line_defines, line_binding_some.
Qed.

(** ** Keys and values that survive a rewrite *)

(** A key that a line written by [_format_env] gives back to [_parse_env]:
    no line boundary, no equals sign, no whitespace at either end and no
    hash sign in front. *)
Definition parseable_key (k : str) : bool :=
  no_linebreak k && negb (existsb (N.eqb EQ) k)
  && (if str_eq_dec (strip k) k then true else false)
  && negb (match k with c :: _ => (c =? HASH)%N | [] => false end).

Lemma parseable_key_spec k :
  parseable_key k = true <->
  no_linebreak k = true /\ ~ In EQ k /\ strip k = k /\ hd_error k <> Some HASH.
Proof.
  unfold parseable_key. rewrite !andb_true_iff, !negb_true_iff. split.
  - intros [[[H1 H2] H3] H4]. split; [assumption|]. split; [|split].
    + intros Hin. assert (existsb (N.eqb EQ) k = true); [|congruence].
      apply existsb_exists. exists EQ. split; [assumption|reflexivity].
    + destruct (str_eq_dec (strip k) k); [assumption|discriminate].
    + destruct k as [|c k]; [discriminate|]. simpl. intros E.
      injection E as ->. discriminate.
  - intros (H1 & H2 & H3 & H4). repeat split; try assumption.
    + destruct (existsb (N.eqb EQ) k) eqn:E; [|reflexivity].
      apply existsb_exists in E. destruct E as [x [Hx Hxe]].
      apply N.eqb_eq in Hxe. subst x. contradiction.
    + destruct (str_eq_dec (strip k) k); [reflexivity|contradiction].
    + destruct k as [|c k]; [reflexivity|].
      destruct (c =? HASH)%N eqn:E; [|reflexivity].
      apply N.eqb_eq in E. subst c. now destruct H4.
Qed.

Lemma rstrip_snoc a c : isspace c = false -> rstrip (a ++ [c]) = a ++ [c].
Proof.
  intros H. rewrite rstrip_app_keep by (simpl; now rewrite H).
  f_equal. unfold rstrip. simpl. now rewrite H.
Qed.

Lemma strip_quoted v : strip (DQ :: v ++ [DQ]) = DQ :: v ++ [DQ].
Proof.
  unfold strip. rewrite lstrip_id by reflexivity.
  change (DQ :: v ++ [DQ]) with ((DQ :: v) ++ [DQ]). now apply rstrip_snoc.
Qed.

Lemma strip_fmt k v : stops isspace k -> strip (fmt k v) = fmt k v.
Proof.
  intros Hk. unfold strip, fmt.
  rewrite lstrip_id by (destruct k; [reflexivity|exact Hk]).
  replace (k ++ EQ :: DQ :: v ++ [DQ]) with ((k ++ EQ :: DQ :: v) ++ [DQ])
    by (rewrite <- app_assoc; reflexivity).
  now apply rstrip_snoc.
Qed.

(** A line that the formatter writes for a parseable key is read back by the
    parser as that key and that value. *)
Lemma parse_line_fmt k v :
  parseable_key k = true -> parse_line (fmt k v) = Some (k, v).
Proof.
  intros Hk. apply parseable_key_spec in Hk.
  destruct Hk as (_ & Heq & Hstrip & Hhash).
  destruct (stripped_ends k Hstrip) as [Hstop _].
  rewrite (parse_line_key_value (fmt k v) k (DQ :: v ++ [DQ])).
  - rewrite Hstrip, strip_quoted, (unquote_quoted DQ v) by now left. reflexivity.
  - now apply strip_fmt.
  - assumption.
  - rewrite strip_fmt by assumption. unfold fmt.
    destruct k as [|c k]; [discriminate|]. exact Hhash.
Qed.

Lemma forallb_strip (q : char -> bool) s :
  forallb q s = true -> forallb q (strip s) = true.
Proof.
  intros H. unfold strip.
  assert (Hl : forallb q (lstrip s) = true) by now apply forallb_drop_while.
  destruct (rstrip_split (lstrip s)) as [w [E _]]. rewrite E in Hl.
  rewrite forallb_app in Hl. now apply andb_true_iff in Hl.
Qed.

Lemma forallb_removelast (q : char -> bool) s :
  forallb q s = true -> forallb q (removelast s) = true.
Proof.
  induction s as [|c s IH]; [reflexivity|]. intros H.
  simpl in H. apply andb_true_iff in H. destruct H as [Hc Hs].
  destruct s as [|c' s]; [reflexivity|].
  change (removelast (c :: c' :: s)) with (c :: removelast (c' :: s)).
  cbn [forallb]. rewrite Hc. exact (IH Hs).
Qed.

Lemma forallb_unquote (q : char -> bool) s :
  forallb q s = true -> forallb q (unquote s) = true.
Proof.
  intros H. unfold unquote.
  destruct ((2 <=? length s) && _); [|assumption].
  apply forallb_removelast. destruct s as [|c s]; [reflexivity|].
  simpl in *. now apply andb_true_iff in H.
Qed.

Lemma rstrip_without_space k :
  forallb (fun c => negb (isspace c)) k = true -> rstrip k = k.
Proof.
  intros H. destruct (rstrip_split k) as [w [E Hw]].
  rewrite E in H. rewrite forallb_app in H. apply andb_true_iff in H.
  destruct H as [_ Hw']. destruct w as [|c w].
  - now rewrite app_nil_r in E.
  - simpl in Hw, Hw'. apply andb_true_iff in Hw, Hw'.
    destruct Hw as [Hc _], Hw' as [Hc' _]. rewrite Hc in Hc'. discriminate.
Qed.

Lemma ident_without_space k :
  is_ident k = true -> forallb (fun c => negb (isspace c)) k = true.
Proof.
  destruct k as [|c cs]; [discriminate|]. simpl. intros H.
  apply andb_true_iff in H. destruct H as [Hc Hcs].
  rewrite (ident_char_not_space c (ident_start_char c Hc)). simpl.
  rewrite forallb_forall in *. intros x Hx.
  now rewrite (ident_char_not_space x (Hcs x Hx)).
Qed.

Lemma ident_char_not_eq c : is_ident_char c = true -> (c =? EQ)%N = false.
Proof. char_solve. Qed.

Lemma ident_start_not_hash c : is_ident_start c = true -> (c =? HASH)%N = false.
Proof. char_solve. Qed.

Lemma space_not_eq c : isspace c = true -> (c =? EQ)%N = false.
Proof. char_solve. Qed.

Lemma ident_strip k : is_ident k = true -> strip k = k.
Proof.
  intros H. pose proof (ident_without_space k H) as Hns. unfold strip.
  rewrite lstrip_id.
  - now apply rstrip_without_space.
  - destruct k as [|c k]; [exact I|]. simpl in *.
    apply andb_true_iff in Hns. destruct Hns as [Hc _]. now apply negb_true_iff.
Qed.

Lemma ident_no_eq k : is_ident k = true -> ~ In EQ k.
Proof.
  destruct k as [|c cs]; [discriminate|]. simpl. intros H.
  apply andb_true_iff in H. destruct H as [Hc Hcs].
  intros [E|E].
  - subst c. discriminate.
  - rewrite forallb_forall in Hcs. specialize (Hcs EQ E). discriminate.
Qed.

(** Every identifier of the key-value pattern is a parseable key. *)
Lemma ident_parseable k : is_ident k = true -> parseable_key k = true.
Proof.
  intros H. apply parseable_key_spec.
  split; [now apply ident_no_linebreak|]. split; [now apply ident_no_eq|].
  split; [now apply ident_strip|].
  destruct k as [|c cs]; [discriminate|]. simpl in *.
  apply andb_true_iff in H. destruct H as [Hc _].
  intros E. injection E as ->. discriminate.
Qed.

(** X3. A line that [_format_env] writes for a key and a value is read back
    by the loop of [_parse_env] as that key and that value, whatever the
    value holds (quotes, equals signs, hash signs, whitespace), as long as
    the key is a parseable one; identifiers of the key-value pattern are. *)
Theorem formatted_line_reads_back (k v : str) :
  parseable_key k = true \/ is_ident k = true ->
  parse_line (fmt k v) = Some (k, v).
Proof.
  intros [H|H]; apply parse_line_fmt; [assumption|now apply ident_parseable].
Qed.

Lemma formatted_line_reads_back_witness :
  parse_line (fmt (py "A_1") (py " x=" ++ [DQ] ++ py "# y "))
  = Some (py "A_1", py " x=" ++ [DQ] ++ py "# y ").
Proof.
  apply (formatted_line_reads_back (py "A_1") (py " x=" ++ [DQ] ++ py "# y ")).
  right. vm_compute. reflexivity.
Defined.

Lemma defines_parseable l k v :
  parse_line l = Some (k, v) -> no_linebreak l = true ->
  parseable_key k = true /\ no_linebreak v = true.
Proof.
  intros H Hl. apply parse_line_defines in H.
  destruct H as (kraw & vraw & Hs & Hk & Hh & -> & ->).
  assert (Hsl : no_linebreak (strip l) = true) by now apply forallb_strip.
  rewrite Hs in Hsl. unfold no_linebreak in Hsl. rewrite forallb_app in Hsl.
  apply andb_true_iff in Hsl. destruct Hsl as [Hkr Hvr].
  cbn [forallb] in Hvr. apply andb_true_iff in Hvr. destruct Hvr as [_ Hvr].
  split.
  - apply parseable_key_spec. split; [now apply forallb_strip|]. split; [|split].
    + apply not_eq_prefix. apply forallb_strip.
      apply forallb_forall. intros x Hx. apply negb_true_iff, N.eqb_neq.
      intros ->. contradiction.
    + apply strip_idem.
    + pose proof (strip_stops l) as Hstop. rewrite Hs in *.
      destruct kraw as [|c kraw]; [discriminate|].
      simpl in Hstop, Hh. unfold strip.
      rewrite lstrip_id by exact Hstop. rewrite rstrip_cons, Hstop.
      destruct (forallb isspace kraw); simpl; exact Hh.
  - apply forallb_unquote. now apply forallb_strip.
Qed.

Lemma dict_set_entries (P : str * str -> Prop) k v d :
  P (k, v) -> Forall P d -> Forall P (dict_set k v d).
Proof.
  intros Hkv Hd. induction Hd as [|[k' v'] d Hx Hd IH]; simpl.
  - now constructor.
  - destruct (str_eq_dec k k') as [<-|E]; constructor; assumption.
Qed.

Lemma parse_env_fold_entries (P : str * str -> Prop) ls : forall d,
  (forall l k v, In l ls -> parse_line l = Some (k, v) -> P (k, v)) ->
  Forall P d -> Forall P (fold_left parse_env_step ls d).
Proof.
  induction ls as [|l ls IH]; intros d HP Hd; [assumption|].
  simpl. apply IH; [intros; eapply HP; eauto; now right|].
  unfold parse_env_step. destruct (parse_line l) as [[k v]|] eqn:E; [|assumption].
  apply dict_set_entries; auto. apply (HP l); [now left|assumption].
Qed.

(** X4. Every key that [_parse_env] returns has no whitespace at either
    end, holds no equals sign and no line boundary and does not start with
    a hash sign; every value it returns holds no line boundary. *)
Theorem parse_env_entries_wellformed (content k v : str) :
  In (k, v) (_parse_env content) ->
  strip k = k /\ ~ In EQ k /\ hd_error k <> Some HASH
  /\ no_linebreak k = true /\ no_linebreak v = true.
Proof.
  intros Hin.
  assert (H : Forall (fun kv => parseable_key (fst kv) = true
                                /\ no_linebreak (snd kv) = true)
                     (_parse_env content)).
  { apply parse_env_fold_entries; [|constructor].
    intros l k0 v0 Hl Hp. simpl. apply (defines_parseable l); [assumption|].
    pose proof (splitlines_no_linebreak content) as Hn.
    rewrite Forall_forall in Hn. now apply Hn. }
  rewrite Forall_forall in H. destruct (H _ Hin) as [Hk Hv]. simpl in Hk, Hv.
  apply parseable_key_spec in Hk. tauto.
Qed.

Lemma parse_env_entries_wellformed_witness :
  strip (py "KEY") = py "KEY" /\ no_linebreak (py "new value") = true.
Proof.
  destruct (parse_env_entries_wellformed parse_sample (py "KEY") (py "new value"))
    as (H1 & _ & _ & _ & H2).
  - vm_compute. left. reflexivity.
  - split; assumption.
Defined.

Lemma dict_set_keys k v d :
  forall x, In x (keys (dict_set k v d)) -> x = k \/ In x (keys d).
Proof.
  induction d as [|[k' v'] d IH]; simpl; intros x Hx.
  - destruct Hx as [<-|[]]. now left.
  - destruct (str_eq_dec k k'); simpl in Hx.
    + right. exact Hx.
    + destruct Hx as [<-|Hx]; [right; now left|].
      destruct (IH x Hx); auto.
Qed.

Lemma dict_set_NoDup k v d : NoDup (keys d) -> NoDup (keys (dict_set k v d)).
Proof.
  induction d as [|[k' v'] d IH]; simpl; intros H.
  - repeat constructor. intros [].
  - inversion H as [|? ? Hnot Hd]; subst.
    destruct (str_eq_dec k k') as [E|E]; simpl; [now constructor|].
    constructor; [|auto].
    intros Hin. apply dict_set_keys in Hin. destruct Hin as [->|Hin]; congruence.
Qed.

(** X5. The mapping that [_parse_env] returns holds each key once, however
    often the text defines it. *)
Theorem parse_env_keys_unique (content : str) : NoDup (keys (_parse_env content)).
Proof.
  unfold _parse_env. generalize (splitlines content). intros ls.
  assert (H : forall d, NoDup (keys d) ->
                        NoDup (keys (fold_left parse_env_step ls d))).
  { induction ls as [|l ls IH]; intros d Hd; [assumption|].
    simpl. apply IH. unfold parse_env_step.
    destruct (parse_line l) as [[k v]|]; [now apply dict_set_NoDup|assumption]. }
  apply H. constructor.
Qed.

(** ** The two readings of a key-value line agree *)

(** Every line the key-value pattern matches has the shape it describes. *)
Lemma match_env_key_elim line k :
  match_env_key line = Some k ->
  exists w1 w2 t,
    line = w1 ++ k ++ w2 ++ EQ :: t /\
    forallb isspace w1 = true /\ is_ident k = true /\
    forallb isspace w2 = true /\ env_tail_ok t = true.
Proof.
  intros H. pose proof (match_env_key_ident line k H) as Hid.
  unfold match_env_key in H.
  pose proof (take_drop_while isspace line) as Hline.
  pose proof (take_while_all isspace line) as Hw1.
  fold (lstrip line) in Hline.
  destruct (lstrip line) as [|c s]; [discriminate|].
  destruct (is_ident_start c); [|discriminate].
  pose proof (take_drop_while is_ident_char s) as Hs.
  pose proof (take_drop_while isspace (drop_while is_ident_char s)) as Hd.
  pose proof (take_while_all isspace (drop_while is_ident_char s)) as Hw2.
  fold (lstrip (drop_while is_ident_char s)) in Hd.
  destruct (lstrip (drop_while is_ident_char s)) as [|e t]; [discriminate|].
  destruct ((e =? EQ)%N && env_tail_ok t) eqn:He; [|discriminate].
  apply andb_true_iff in He. destruct He as [He Ht]. apply N.eqb_eq in He. subst e.
  injection H as <-.
  exists (take_while isspace line),
    (take_while isspace (drop_while is_ident_char s)), t.
  repeat split; try assumption.
  rewrite <- Hs in Hline. rewrite <- Hd in Hline.
  symmetry. exact Hline.
Qed.

(** A line the key-value pattern matches is a definition for the parser too,
    of the same key. *)
Lemma match_defines l k :
  match_env_key l = Some k -> exists v, parse_line l = Some (k, v).
Proof.
  intros H. apply match_env_key_elim in H.
  destruct H as (w1 & w2 & t & -> & H1 & Hk & H2 & _).
  assert (Hstart : stops isspace (k ++ w2 ++ EQ :: t)).
  { destruct k as [|c cs]; [discriminate|]. simpl in *.
    apply andb_true_iff in Hk. destruct Hk as [Hc _].
    apply ident_char_not_space, ident_start_char, Hc. }
  assert (Hstrip : exists t', strip (w1 ++ k ++ w2 ++ EQ :: t)
                              = (k ++ w2) ++ EQ :: t').
  { unfold strip. rewrite lstrip_app_space, (lstrip_id _ Hstart) by assumption.
    rewrite app_assoc. rewrite rstrip_app_keep by reflexivity.
    rewrite rstrip_cons. change (isspace EQ) with false.
    destruct (forallb isspace t); eauto. }
  destruct Hstrip as [t' Hstrip].
  exists (unquote (strip t')).
  rewrite (parse_line_key_value _ (k ++ w2) t' Hstrip).
  - do 2 f_equal. unfold strip.
    rewrite lstrip_id.
    + rewrite rstrip_app_space by assumption.
      now apply rstrip_without_space, ident_without_space.
    + destruct k as [|c cs]; [discriminate|]. exact Hstart.
  - intros Hin. apply in_app_or in Hin. destruct Hin as [Hin|Hin].
    + now apply (ident_no_eq k Hk).
    + rewrite forallb_forall in H2. specialize (H2 EQ Hin). discriminate.
  - rewrite Hstrip. destruct k as [|c cs]; [discriminate|]. simpl in *.
    apply andb_true_iff in Hk. destruct Hk as [Hc _].
    intros E. injection E as ->. discriminate.
Qed.

(** A definition of an identifier, on a line without line boundary, is
    matched by the key-value pattern, with the same key. *)
Lemma defines_match l k v :
  parse_line l = Some (k, v) -> is_ident k = true -> no_linebreak l = true ->
  match_env_key l = Some k.
Proof.
  intros H Hk Hl. apply parse_line_defines in H.
  destruct H as (kraw & vraw & Hs & Heq & Hh & -> & _).
  pose proof (take_drop_while isspace l) as Hline. fold (lstrip l) in Hline.
  pose proof (take_while_all isspace l) as Hw1.
  destruct (rstrip_split (lstrip l)) as [w3 [Hl3 Hw3]].
  fold (strip l) in Hl3. rewrite Hs in Hl3.
  pose proof (strip_stops l) as Hstop. rewrite Hs in Hstop.
  assert (Hkraw : stops isspace kraw).
  { destruct kraw as [|c kraw]; [exact I|exact Hstop]. }
  assert (Ek : strip kraw = rstrip kraw)
    by (unfold strip; now rewrite (lstrip_id _ Hkraw)).
  rewrite Ek in *.
  destruct (rstrip_split kraw) as [w2 [Hk2 Hw2]].
  assert (E : l = take_while isspace l ++ rstrip kraw ++ w2 ++ EQ :: (vraw ++ w3)).
  { rewrite <- Hline at 1. f_equal. rewrite Hl3. rewrite Hk2 at 1.
    now rewrite <- !app_assoc. }
  rewrite E. apply match_env_key_intro; try assumption.
  apply env_tail_ok_no_linebreak.
  rewrite E in Hl. unfold no_linebreak in *.
  rewrite !forallb_app in Hl. cbn [forallb] in Hl.
  repeat (apply andb_true_iff in Hl; destruct Hl as [_ Hl]).
  exact Hl.
Qed.

(** ** Formatting, then parsing *)

(** An update set whose lines the parser reads back: parseable keys, values
    without line boundary. *)
Definition readable_updates (d : dict) : Prop :=
  forall k v, In (k, v) d -> parseable_key k = true /\ no_linebreak v = true.

Lemma fmt_no_linebreak_key k v :
  no_linebreak k = true -> no_linebreak v = true -> no_linebreak (fmt k v) = true.
Proof.
  intros Hk Hv. unfold fmt, no_linebreak in *.
  rewrite forallb_app, Hk. cbn [forallb]. rewrite forallb_app, Hv. reflexivity.
Qed.

Lemma last_binding_map_ext k (f : str -> str) ls :
  (forall l, In l ls -> line_binding k (f l) = line_binding k l) ->
  last_binding k (map f ls) = last_binding k ls.
Proof.
  induction ls as [|l ls IH]; intros H; [reflexivity|].
  simpl. rewrite IH by (intros; apply H; now right).
  rewrite (H l) by now left. reflexivity.
Qed.

Section FormatThenParse.
Variable d : dict.
Hypothesis Hd : readable_updates d.

Lemma readable_get k v :
  dict_get k d = Some v -> parseable_key k = true /\ no_linebreak v = true.
Proof. intros H. apply dict_get_In in H. now apply Hd. Qed.

Lemma rewritten_line_binding k v l x :
  is_ident k = true -> dict_get k d = Some v -> no_linebreak l = true ->
  line_binding k (rewrite_line d l) = Some x -> x = v.
Proof.
  intros Hk Hg Hl Hb. apply line_binding_some in Hb. unfold rewrite_line in Hb.
  destruct (match_env_key l) as [k2|] eqn:Hm.
  - destruct (dict_get k2 d) as [v2|] eqn:Hg2.
    + rewrite parse_line_fmt in Hb
        by (apply ident_parseable; eapply match_env_key_ident; eauto).
      injection Hb as <- <-. congruence.
    + destruct (match_defines l k2 Hm) as [v2 Hp]. congruence.
  - rewrite (defines_match l k x Hb Hk Hl) in Hm. discriminate.
Qed.

Lemma appendix_line_binding k ks l :
  incl ks (keys d) -> In l (appendix d ks) ->
  line_binding k l = None
  \/ (In k ks /\ line_binding k l = Some (getitem d k)).
Proof.
  intros Hincl Hin. destruct ks as [|k0 ks]; [destruct Hin|].
  unfold appendix in Hin. remember (k0 :: ks) as ks' eqn:Eks. clear Eks.
  destruct Hin as [<-|[<-|Hin]]; [now left|now left|].
  apply in_map_iff in Hin. destruct Hin as [k2 [<- Hk2]].
  destruct (in_keys_dict_get d k2 (Hincl k2 Hk2)) as [v2 Hg2].
  unfold getitem at 1 2. rewrite Hg2.
  unfold line_binding.
  rewrite parse_line_fmt by (apply (readable_get k2 v2 Hg2)).
  destruct (str_eq_dec k k2) as [->|E]; [|now left].
  right. split; [assumption|]. unfold getitem. now rewrite Hg2.
Qed.

Lemma format_env_lines_no_linebreak lines :
  Forall (fun l => no_linebreak l = true) lines ->
  Forall (fun l => no_linebreak l = true)
         (map (rewrite_line d) lines ++ appendix d (missing_keys d lines)).
Proof.
  intros Hlines. apply Forall_app. split.
  - apply Forall_forall. intros o Ho. apply in_map_iff in Ho.
    destruct Ho as [l [<- Hl]]. rewrite Forall_forall in Hlines.
    specialize (Hlines l Hl). unfold rewrite_line.
    destruct (match_env_key l) as [k2|] eqn:Hm; [|assumption].
    destruct (dict_get k2 d) as [v2|] eqn:Hg; [|assumption].
    apply fmt_no_linebreak_key; [|apply (readable_get k2 v2 Hg)].
    apply ident_no_linebreak. eapply match_env_key_ident; eauto.
  - pose proof (missing_keys_incl d lines) as Hincl.
    destruct (missing_keys d lines) as [|k0 ks]; [constructor|].
    unfold appendix. remember (k0 :: ks) as ks' eqn:Eks. clear Eks.
    repeat constructor. apply Forall_forall. intros o Ho.
    apply in_map_iff in Ho. destruct Ho as [k2 [<- Hk2]].
    destruct (in_keys_dict_get d k2 (Hincl k2 Hk2)) as [v2 Hg2].
    unfold getitem. rewrite Hg2.
    destruct (readable_get k2 v2 Hg2) as [Hk Hv].
    apply parseable_key_spec in Hk. apply fmt_no_linebreak_key; tauto.
Qed.

(** The lines at the [return] of [_format_env], read by the parser. *)
Lemma format_env_lines_binding k lines :
  Forall (fun l => no_linebreak l = true) lines ->
  last_binding k (map (rewrite_line d) lines ++ appendix d (missing_keys d lines))
  = or_else (dict_get k d) (last_binding k lines).
Proof.
  intros Hlines. pose proof (missing_keys_incl d lines) as Hincl.
  destruct (dict_get k d) as [v|] eqn:Hg; simpl.
  - destruct (existsb (has_key k) lines) eqn:Hex.
    + apply existsb_exists in Hex. destruct Hex as [l0 [Hl0 Hk0]].
      apply has_key_true in Hk0.
      pose proof (match_env_key_ident l0 k Hk0) as Hid.
      apply last_binding_all.
      * intros o x Ho Hb. apply in_app_or in Ho. destruct Ho as [Ho|Ho].
        -- apply in_map_iff in Ho. destruct Ho as [l [<- Hl]].
           rewrite Forall_forall in Hlines.
           apply (rewritten_line_binding k v l x); auto.
        -- destruct (appendix_line_binding k _ o Hincl Ho) as [E|[_ E]];
             rewrite E in Hb; [discriminate|].
           injection Hb as <-. unfold getitem. now rewrite Hg.
      * exists (rewrite_line d l0). split.
        -- apply in_or_app. left. now apply in_map.
        -- unfold rewrite_line. rewrite Hk0, Hg. apply line_binding_some.
           apply parse_line_fmt. now apply ident_parseable.
    + rewrite last_binding_app.
      assert (Hmiss : In k (missing_keys d lines)).
      { unfold missing_keys. apply filter_In. rewrite Hex.
        split; [|reflexivity]. apply dict_get_In in Hg.
        apply in_map_iff. exists (k, v). auto. }
      rewrite (last_binding_all k v (appendix d (missing_keys d lines))).
      * reflexivity.
      * intros o x Ho Hb.
        destruct (appendix_line_binding k _ o Hincl Ho) as [E|[_ E]];
          rewrite E in Hb; [discriminate|].
        injection Hb as <-. unfold getitem. now rewrite Hg.
      * exists (fmt k v). split.
        -- destruct (missing_keys d lines) as [|k0 ks] eqn:Em; [destruct Hmiss|].
           unfold appendix. right. right. apply in_map_iff.
           exists k. split; [|assumption]. unfold getitem. now rewrite Hg.
        -- apply line_binding_some, parse_line_fmt. apply (readable_get k v Hg).
  - rewrite last_binding_app.
    assert (Happ : last_binding k (appendix d (missing_keys d lines)) = None).
    { apply last_binding_none. intros o Ho.
      destruct (appendix_line_binding k _ o Hincl Ho) as [E|[Hin _]];
        [assumption|].
      apply Hincl in Hin. apply in_keys_dict_get in Hin.
      destruct Hin as [v Hv]. congruence. }
    rewrite Happ. simpl. apply last_binding_map_ext. intros l Hl.
    unfold rewrite_line.
    destruct (match_env_key l) as [k2|] eqn:Hm; [|reflexivity].
    destruct (dict_get k2 d) as [v2|] eqn:Hg2; [|reflexivity].
    destruct (match_defines l k2 Hm) as [x Hp].
    unfold line_binding. rewrite Hp, parse_line_fmt
      by (apply ident_parseable; eapply match_env_key_ident; eauto).
    destruct (str_eq_dec k k2); [congruence|reflexivity].
Qed.

Lemma format_parse_get original k :
  dict_get k (_parse_env (_format_env d original))
  = or_else (dict_get k d) (dict_get k (_parse_env original)).
Proof.
  rewrite !parse_env_get. unfold _format_env.
  rewrite format_env_lines_closed.
  pose proof (splitlines_no_linebreak original) as Hlines.
  pose proof (format_env_lines_no_linebreak _ Hlines) as Hout.
  rewrite <- (format_env_lines_binding k _ Hlines).
  destruct (map (rewrite_line d) (splitlines original) ++
            appendix d (missing_keys d (splitlines original))) as [|o out].
  - reflexivity.
  - now rewrite splitlines_join by (assumption || discriminate).
Qed.

End FormatThenParse.

(** X6. For an update set of parseable keys and values without line
    boundary, the text that [_format_env] returns parses to the update set
    laid over the parse of the input: every key of the update set is bound
    to its new value, every other key to what the input text bound it to. *)
Theorem format_then_parse (d : dict) (original k : str) :
  readable_updates d ->
  dict_get k (_parse_env (_format_env d original))
  = match dict_get k d with
    | Some v => Some v
    | None => dict_get k (_parse_env original)
    end.
Proof. intros Hd. now apply format_parse_get. Qed.

Lemma format_then_parse_witness :
  dict_get (py "C") (_parse_env (_format_env two_updates dup_text)) = Some (py "3")
  /\ dict_get (py "A") (_parse_env (_format_env two_updates dup_text)) = Some (py "9").
Proof.
  assert (H : readable_updates two_updates).
  { intros k v [E|[E|[]]]; injection E as <- <-; split; vm_compute; reflexivity. }
  split.
  - exact (format_then_parse two_updates dup_text (py "C") H).
  - exact (format_then_parse two_updates dup_text (py "A") H).
Defined.

(** X7. [_format_env] passes every line through as it is, at its place,
    unless the line has the key-value shape with a key of the update set:
    comments, blank lines, malformed lines and definitions of other keys
    are never changed, moved or dropped. *)
Theorem format_env_keeps_other_lines (d : dict) (original : str) (i : nat) (line : str) :
  nth_error (splitlines original) i = Some line ->
  (match_env_key line = None
   \/ exists k, match_env_key line = Some k /\ dict_get k d = None) ->
  nth_error (format_env_lines d original) i = Some line.
Proof.
  intros Hi Hline. rewrite format_env_lines_closed.
  rewrite nth_error_app1.
  - rewrite nth_error_map, Hi. simpl. f_equal. unfold rewrite_line.
    destruct Hline as [->|(k & -> & ->)]; reflexivity.
  - rewrite length_map. apply nth_error_Some. congruence.
Qed.

Lemma format_env_keeps_other_lines_witness :
  nth_error (format_env_lines [(py "B", py "9")]
               (text_of [py "A=1"; py "# B=2"; py "B=3"])) 1
  = Some (py "# B=2").
Proof.
  apply (format_env_keeps_other_lines [(py "B", py "9")]
           (text_of [py "A=1"; py "# B=2"; py "B=3"]) 1 (py "# B=2")).
  - vm_compute. reflexivity.
  - left. vm_compute. reflexivity.
Defined.

(** ** What the stripper keeps *)

(** [a] is [b] with some elements left out, the others in their order. *)
Inductive subseq : list str -> list str -> Prop :=
| subseq_nil : subseq [] []
| subseq_skip x a b : subseq a b -> subseq a (x :: b)
| subseq_keep x a b : subseq a b -> subseq (x :: a) (x :: b).

Lemma subseq_suffix pre a b : subseq a b -> subseq a (pre ++ b).
Proof. intros H. induction pre; simpl; [assumption|now constructor]. Qed.

Lemma skip_block_suffix ls : forall depth,
  exists pre, ls = pre ++ skip_block depth ls.
Proof.
  induction ls as [|l ls IH]; intros depth; simpl.
  - now exists [].
  - destruct (0 <? depth)%Z.
    + destruct (IH (depth + brace_delta l)%Z) as [pre E].
      exists (l :: pre). simpl. now rewrite <- E.
    + now exists [].
Qed.

Lemma skip_blank_suffix ls :
  exists pre, ls = pre ++ skip_blank ls /\ Forall (fun l => is_blank l = true) pre.
Proof.
  induction ls as [|l ls [pre [E Hpre]]]; simpl.
  - exists []. split; [reflexivity|constructor].
  - destruct (is_blank l) eqn:Hb.
    + exists (l :: pre). simpl. split; [now rewrite <- E|now constructor].
    + exists []. split; [reflexivity|constructor].
Qed.

Lemma scan_subseq ls : subseq (scan ls) ls.
Proof.
  funelim (scan ls).
  - constructor.
  - apply subseq_skip.
    destruct (skip_block_suffix ls' (brace_delta l)) as [p1 E1].
    destruct (skip_blank_suffix (skip_block (brace_delta l) ls')) as [p2 [E2 _]].
    rewrite E1, E2 at 2. now apply subseq_suffix, subseq_suffix.
  - now apply subseq_keep.
Qed.

(** X8. The lines that [_strip_s3_vhost_from_caddyfile] keeps are lines of
    the input in their original order, none of them a header line of the
    pattern: the function only leaves lines out, it never reorders, repeats
    or invents one, and the result is these lines joined, with the trailing
    whitespace replaced by one newline. *)
Theorem strip_keeps_lines_in_order (caddyfile : str) :
  exists kept,
    subseq kept (splitlines caddyfile)
    /\ Forall not_header kept
    /\ _strip_s3_vhost_from_caddyfile caddyfile = rstrip (join kept) ++ [LF].
Proof.
  exists (scan (splitlines caddyfile)). split; [apply scan_subseq|].
  split; [|reflexivity].
  eapply Forall_impl; [|apply scan_keeps_plain_lines]. simpl. tauto.
Qed.

(** X9. No line of the result of [_strip_s3_vhost_from_caddyfile] is a
    header line of the pattern: once the script has run, the file holds no
    line that opens an s3 block. *)
Theorem strip_result_has_no_header (caddyfile : str) :
  Forall not_header (splitlines (_strip_s3_vhost_from_caddyfile caddyfile)).
Proof.
  unfold _strip_s3_vhost_from_caddyfile.
  set (out := scan (splitlines caddyfile)).
  assert (Hout : Forall (fun l => not_header l /\ In l (splitlines caddyfile)) out)
    by apply scan_keeps_plain_lines.
  assert (Hplain : Forall not_header (rstrip_lines out)).
  { apply rstrip_lines_Forall; [apply not_header_rstrip|].
    eapply Forall_impl; [|exact Hout]. simpl. tauto. }
  assert (Hnolb : Forall (fun l => no_linebreak l = true) (rstrip_lines out)).
  { apply rstrip_lines_Forall; [apply no_linebreak_rstrip|].
    eapply Forall_impl; [|exact Hout]. simpl. intros l [_ Hin].
    pose proof (splitlines_no_linebreak caddyfile) as H.
    rewrite Forall_forall in H. now apply H. }
  destruct (rstrip_join out) as [-> _].
  destruct (rstrip_lines out) as [|x xs].
  - repeat constructor.
  - now rewrite splitlines_join by (assumption || discriminate).
Qed.

(** X10. The result of [_strip_s3_vhost_from_caddyfile] is never empty: it
    ends with exactly one newline, and what stands before that newline is
    empty or ends with a character that is no whitespace. *)
Theorem strip_result_ends_with_one_newline (caddyfile : str) :
  exists r,
    _strip_s3_vhost_from_caddyfile caddyfile = r ++ [LF]
    /\ (r = [] \/ exists r' c, r = r' ++ [c] /\ isspace c = false).
Proof.
  unfold _strip_s3_vhost_from_caddyfile.
  exists (rstrip (join (scan (splitlines caddyfile)))).
  split; [reflexivity|apply rstrip_last].
Qed.

(** ** [main]

    [main] reads seven environment variables, then the remote [.env] file
    and Caddyfile over SSH, and writes both back.  The remote reads are
    arguments here and the writes are results; the SSH session, the file
    transfer and the [docker] commands are not part of the model. *)

Definition bind {A B : Type} (x : outcome A) (f : A -> outcome B) : outcome B :=
  match x with
  | Returns a => f a
  | SystemExit msg => SystemExit msg
  end.

(** The values of lines 163-172, in the order in which [main] asks for
    them. *)
Record inputs : Type := {
  vps_host : str;
  vps_user : str;
  vps_password : str;
  r2_account_id : str;
  r2_access_key : str;
  r2_secret_key : str;
  r2_bucket : str
}.

Definition required_names : list str :=
  [py "VPS_HOST"; py "VPS_USER"; py "VPS_PASS"; py "R2_ACCOUNT_ID";
   py "R2_ACCESS_KEY_ID"; py "R2_SECRET_ACCESS_KEY"; py "R2_MEDIA_BUCKET"].

Definition main_inputs (env : environ) : outcome inputs :=
  bind (_require_env env (py "VPS_HOST")) (fun host =>
  bind (_require_env env (py "VPS_USER")) (fun user =>
  bind (_require_env env (py "VPS_PASS")) (fun password =>
  bind (_require_env env (py "R2_ACCOUNT_ID")) (fun account_id =>
  bind (_require_env env (py "R2_ACCESS_KEY_ID")) (fun access_key =>
  bind (_require_env env (py "R2_SECRET_ACCESS_KEY")) (fun secret_key =>
  bind (_require_env env (py "R2_MEDIA_BUCKET")) (fun bucket =>
  Returns {| vps_host := host; vps_user := user; vps_password := password;
             r2_account_id := account_id; r2_access_key := access_key;
             r2_secret_key := secret_key; r2_bucket := bucket |}))))))).

(** The f-string of line 175. *)
Definition r2_endpoint (account_id : str) : str :=
  py "https://" ++ account_id ++ py ".r2.cloudflarestorage.com".

(** The [updates] literal of lines 185-193. *)
Definition media_updates (i : inputs) : dict :=
  [(py "LANGFUSE_S3_MEDIA_UPLOAD_BUCKET", r2_bucket i);
   (py "LANGFUSE_S3_MEDIA_UPLOAD_REGION", py "auto");
   (py "LANGFUSE_S3_MEDIA_UPLOAD_ACCESS_KEY_ID", r2_access_key i);
   (py "LANGFUSE_S3_MEDIA_UPLOAD_SECRET_ACCESS_KEY", r2_secret_key i);
   (py "LANGFUSE_S3_MEDIA_UPLOAD_ENDPOINT", r2_endpoint (r2_account_id i));
   (py "LANGFUSE_S3_MEDIA_UPLOAD_FORCE_PATH_STYLE", py "true")].

(** [d.update(updates)] *)
Definition dict_update (d updates : dict) : dict :=
  fold_left (fun acc kv => dict_set (fst kv) (snd kv) acc) updates d.

(** [env_vars] after line 195. *)
Definition main_env_vars (i : inputs) (env_text : str) : dict :=
  dict_update (_parse_env env_text) (media_updates i).

(** What [main] writes: the new [.env] text always, the new Caddyfile only
    when it differs from the one read (lines 196-203). *)
Record writes : Type := {
  env_written : str;
  caddy_written : option str
}.

Definition main_writes (env : environ) (env_text caddy_text : str) : outcome writes :=
  bind (main_inputs env) (fun i =>
    let new_env_text := _format_env (main_env_vars i env_text) env_text in
    let new_caddy_text := _strip_s3_vhost_from_caddyfile caddy_text in
    Returns {| env_written := new_env_text;
               caddy_written :=
                 if str_eq_dec new_caddy_text caddy_text then None
                 else Some new_caddy_text |}).

(** The variable is set to a text that is not all whitespace. *)
Definition is_set (env : environ) (name : str) : Prop :=
  exists raw, env name = Some raw /\ forallb isspace raw = false.

Lemma require_env_cases env name :
  (exists v, _require_env env name = Returns v /\ is_set env name
             /\ v = strip (environ_get env name))
  \/ (_require_env env name = SystemExit (py "Missing env var: " ++ name)
      /\ ~ is_set env name).
Proof.
  unfold _require_env, environ_get, is_set.
  destruct (env name) as [raw|] eqn:E.
  - destruct (strip raw) as [|c t] eqn:Es.
    + right. split; [reflexivity|].
      intros (raw' & Hr & Hn). injection Hr as <-.
      apply strip_nil_iff in Es. congruence.
    + left. exists (c :: t). split; [reflexivity|]. split; [|reflexivity].
      exists raw. split; [reflexivity|].
      destruct (forallb isspace raw) eqn:Hw; [|reflexivity].
      apply strip_nil_iff in Hw. congruence.
  - right. split; [reflexivity|]. intros (raw & Hr & _). discriminate.
Qed.

(** X11. [main] goes on to the remote files only when all seven variables
    are set to texts that are not blank; otherwise it exits with the
    message that names the first of them, in the order VPS_HOST, VPS_USER,
    VPS_PASS, R2_ACCOUNT_ID, R2_ACCESS_KEY_ID, R2_SECRET_ACCESS_KEY,
    R2_MEDIA_BUCKET, that is not, and writes nothing. *)
Theorem main_requires_all_variables (env : environ) (env_text caddy_text : str) :
  ((exists w, main_writes env env_text caddy_text = Returns w)
   <-> Forall (is_set env) required_names)
  /\ (forall msg, main_writes env env_text caddy_text = SystemExit msg ->
        exists before name after,
          required_names = before ++ name :: after
          /\ Forall (is_set env) before /\ ~ is_set env name
          /\ msg = py "Missing env var: " ++ name).
Proof.
  unfold main_writes, main_inputs, required_names.
  destruct (require_env_cases env (py "VPS_HOST")) as [(v1 & -> & S1 & _)|[-> N1]];
  [destruct (require_env_cases env (py "VPS_USER")) as [(v2 & -> & S2 & _)|[-> N2]];
   [destruct (require_env_cases env (py "VPS_PASS")) as [(v3 & -> & S3 & _)|[-> N3]];
    [destruct (require_env_cases env (py "R2_ACCOUNT_ID")) as [(v4 & -> & S4 & _)|[-> N4]];
     [destruct (require_env_cases env (py "R2_ACCESS_KEY_ID")) as [(v5 & -> & S5 & _)|[-> N5]];
      [destruct (require_env_cases env (py "R2_SECRET_ACCESS_KEY")) as [(v6 & -> & S6 & _)|[-> N6]];
       [destruct (require_env_cases env (py "R2_MEDIA_BUCKET")) as [(v7 & -> & S7 & _)|[-> N7]]
       |]|]|]|]|]|]; cbn [bind].
  1: { split; [split; [intros _; repeat constructor; assumption|eauto]|].
       intros msg H. discriminate. }
  all: split;
    [split;
     [intros [w Hw]; discriminate
     |intros HF;
      repeat match goal with H : Forall _ (_ :: _) |- _ => inversion H; clear H; subst end;
      contradiction]
    |intros msg H; injection H as <-].
  - exists [py "VPS_HOST"; py "VPS_USER"; py "VPS_PASS"; py "R2_ACCOUNT_ID";
            py "R2_ACCESS_KEY_ID"; py "R2_SECRET_ACCESS_KEY"], (py "R2_MEDIA_BUCKET"), [].
    repeat split; try assumption. repeat constructor; assumption.
  - exists [py "VPS_HOST"; py "VPS_USER"; py "VPS_PASS"; py "R2_ACCOUNT_ID";
            py "R2_ACCESS_KEY_ID"], (py "R2_SECRET_ACCESS_KEY"), [py "R2_MEDIA_BUCKET"].
    repeat split; try assumption. repeat constructor; assumption.
  - exists [py "VPS_HOST"; py "VPS_USER"; py "VPS_PASS"; py "R2_ACCOUNT_ID"],
      (py "R2_ACCESS_KEY_ID"), [py "R2_SECRET_ACCESS_KEY"; py "R2_MEDIA_BUCKET"].
    repeat split; try assumption. repeat constructor; assumption.
  - exists [py "VPS_HOST"; py "VPS_USER"; py "VPS_PASS"], (py "R2_ACCOUNT_ID"),
      [py "R2_ACCESS_KEY_ID"; py "R2_SECRET_ACCESS_KEY"; py "R2_MEDIA_BUCKET"].
    repeat split; try assumption. repeat constructor; assumption.
  - exists [py "VPS_HOST"; py "VPS_USER"], (py "VPS_PASS"),
      [py "R2_ACCOUNT_ID"; py "R2_ACCESS_KEY_ID"; py "R2_SECRET_ACCESS_KEY";
       py "R2_MEDIA_BUCKET"].
    repeat split; try assumption. repeat constructor; assumption.
  - exists [py "VPS_HOST"], (py "VPS_USER"),
      [py "VPS_PASS"; py "R2_ACCOUNT_ID"; py "R2_ACCESS_KEY_ID";
       py "R2_SECRET_ACCESS_KEY"; py "R2_MEDIA_BUCKET"].
    repeat split; try assumption. repeat constructor; assumption.
  - exists [], (py "VPS_HOST"),
      [py "VPS_USER"; py "VPS_PASS"; py "R2_ACCOUNT_ID"; py "R2_ACCESS_KEY_ID";
       py "R2_SECRET_ACCESS_KEY"; py "R2_MEDIA_BUCKET"].
    repeat split; try assumption. constructor.
Qed.

Lemma dict_get_not_in k d : ~ In k (keys d) -> dict_get k d = None.
Proof.
  intros H. destruct (dict_get k d) as [v|] eqn:E; [|reflexivity].
  destruct H. apply dict_get_In in E. apply in_map_iff. exists (k, v). auto.
Qed.

(** [update] lays the new bindings over the old ones. *)
Lemma dict_update_get k u : forall d,
  NoDup (keys u) ->
  dict_get k (dict_update d u) = or_else (dict_get k u) (dict_get k d).
Proof.
  unfold dict_update.
  induction u as [|[k1 v1] u IH]; intros d Hu; [reflexivity|].
  simpl in Hu. inversion Hu as [|? ? Hnot Hu']; subst.
  simpl. rewrite IH by assumption.
  destruct (str_eq_dec k k1) as [->|E].
  - rewrite (dict_get_not_in k1 u Hnot). simpl. apply dict_get_set_same.
  - now rewrite dict_get_set_other.
Qed.

Lemma dict_update_readable u : forall d,
  readable_updates d -> readable_updates u -> readable_updates (dict_update d u).
Proof.
  unfold dict_update.
  induction u as [|[k1 v1] u IH]; intros d Hd Hu; [assumption|].
  simpl. apply IH.
  - assert (H : Forall (fun kv => parseable_key (fst kv) = true
                                  /\ no_linebreak (snd kv) = true)
                       (dict_set k1 v1 d)).
    { apply dict_set_entries.
      - apply (Hu k1 v1). now left.
      - apply Forall_forall. intros [k v] Hin. now apply Hd. }
    rewrite Forall_forall in H. intros k v Hin. exact (H (k, v) Hin).
  - intros k v Hin. apply Hu. now right.
Qed.

Lemma parse_env_readable content : readable_updates (_parse_env content).
Proof.
  assert (H : Forall (fun kv => parseable_key (fst kv) = true
                                /\ no_linebreak (snd kv) = true)
                     (_parse_env content)).
  { apply parse_env_fold_entries; [|constructor].
    intros l k0 v0 Hl Hp. simpl. apply (defines_parseable l); [assumption|].
    pose proof (splitlines_no_linebreak content) as Hn.
    rewrite Forall_forall in Hn. now apply Hn. }
  rewrite Forall_forall in H. intros k v Hin. exact (H (k, v) Hin).
Qed.

(** The four values that [main] puts into the file hold no line boundary. *)
Definition single_line_inputs (i : inputs) : Prop :=
  no_linebreak (r2_bucket i) = true /\ no_linebreak (r2_access_key i) = true
  /\ no_linebreak (r2_secret_key i) = true
  /\ no_linebreak (r2_account_id i) = true.

Lemma media_updates_keys_unique i : NoDup (keys (media_updates i)).
Proof.
  assert (E : nodup str_eq_dec (keys (media_updates i)) = keys (media_updates i))
    by (vm_compute; reflexivity).
  rewrite <- E. apply NoDup_nodup.
Qed.

Lemma media_updates_readable i :
  single_line_inputs i -> readable_updates (media_updates i).
Proof.
  intros (Hb & Ha & Hs & Hi) k v Hin. unfold media_updates in Hin.
  repeat (destruct Hin as [E|Hin];
          [injection E as <- <-; split; [vm_compute; reflexivity|]|]);
    try assumption; try reflexivity; try (destruct Hin).
  unfold r2_endpoint, no_linebreak in *. rewrite !forallb_app, Hi. reflexivity.
Qed.

Lemma main_env_vars_get i env_text k :
  dict_get k (main_env_vars i env_text)
  = or_else (dict_get k (media_updates i)) (dict_get k (_parse_env env_text)).
Proof. apply dict_update_get, media_updates_keys_unique. Qed.

(** X12. When the four R2 values hold no line boundary, the [.env] text that
    [main] writes parses to the six media settings laid over the parse of
    the text it read: each media key is bound to its new value, and every
    other key keeps the value the old text gave it. *)
Theorem main_env_text_parses_to_updates (i : inputs) (env_text k : str) :
  single_line_inputs i ->
  dict_get k (_parse_env (_format_env (main_env_vars i env_text) env_text))
  = match dict_get k (media_updates i) with
    | Some v => Some v
    | None => dict_get k (_parse_env env_text)
    end.
Proof.
  intros Hi. rewrite format_parse_get.
  - rewrite main_env_vars_get.
    destruct (dict_get k (media_updates i)); [reflexivity|].
    simpl. destruct (dict_get k (_parse_env env_text)); reflexivity.
  - apply dict_update_readable; [apply parse_env_readable|].
    now apply media_updates_readable.
Qed.

(** X13. In [main] every line of the [.env] file that has the key-value
    shape is rewritten, not only the six media settings: its key is always
    in [env_vars], so the line becomes the key, an equals sign and, between
    double quotes, the new value of a media key or else the value of the
    last definition of the key in the file. *)
Theorem main_rewrites_every_key_value_line
  (i : inputs) (env_text : str) (n : nat) (line k : str) :
  nth_error (splitlines env_text) n = Some line ->
  match_env_key line = Some k ->
  exists v,
    match dict_get k (media_updates i) with
    | Some u => Some u
    | None => dict_get k (_parse_env env_text)
    end = Some v
    /\ nth_error (format_env_lines (main_env_vars i env_text) env_text) n
       = Some (fmt k v).
Proof.
  intros Hn Hm.
  assert (Hbound : exists v0, dict_get k (_parse_env env_text) = Some v0).
  { destruct (dict_get k (_parse_env env_text)) as [v0|] eqn:E; [eauto|].
    rewrite parse_env_get, last_binding_none in E.
    destruct (match_defines line k Hm) as [x Hx].
    apply line_binding_some in Hx.
    rewrite (E line) in Hx by (eapply nth_error_In; eauto). discriminate. }
  destruct Hbound as [v0 Hv0].
  assert (Hget : exists v, dict_get k (main_env_vars i env_text) = Some v).
  { rewrite main_env_vars_get, Hv0.
    destruct (dict_get k (media_updates i)); simpl; eauto. }
  destruct Hget as [v Hv]. exists v. split.
  - rewrite main_env_vars_get in Hv. exact Hv.
  - rewrite format_env_lines_closed, nth_error_app1.
    + rewrite nth_error_map, Hn. simpl. unfold rewrite_line. now rewrite Hm, Hv.
    + rewrite length_map. apply nth_error_Some. congruence.
Qed.

Definition sample_inputs : inputs :=
  {| vps_host := py "203.0.113.7"; vps_user := py "root"; vps_password := py "pw";
     r2_account_id := py "acc123"; r2_access_key := py "AKIA";
     r2_secret_key := py "s3cr3t"; r2_bucket := py "media" |}.

Definition sample_env : str :=
  text_of [py "DATABASE_URL=postgres"; py "# storage";
           py "LANGFUSE_S3_MEDIA_UPLOAD_BUCKET=old"].

Lemma sample_inputs_single_line : single_line_inputs sample_inputs.
Proof. repeat split; vm_compute; reflexivity. Qed.

Lemma main_env_text_parses_to_updates_witness :
  dict_get (py "LANGFUSE_S3_MEDIA_UPLOAD_ENDPOINT")
    (_parse_env (_format_env (main_env_vars sample_inputs sample_env) sample_env))
  = Some (py "https://acc123.r2.cloudflarestorage.com").
Proof.
  exact (main_env_text_parses_to_updates sample_inputs sample_env
           (py "LANGFUSE_S3_MEDIA_UPLOAD_ENDPOINT") sample_inputs_single_line).
Defined.

Lemma main_rewrites_every_key_value_line_witness :
  nth_error (format_env_lines (main_env_vars sample_inputs sample_env) sample_env) 0
  = Some (fmt (py "DATABASE_URL") (py "postgres")).
Proof.
  destruct (main_rewrites_every_key_value_line sample_inputs sample_env 0
              (py "DATABASE_URL=postgres") (py "DATABASE_URL"))
    as (v & Hv & Hline).
  - vm_compute. reflexivity.
  - vm_compute. reflexivity.
  - vm_compute in Hv. injection Hv as <-. exact Hline.
Defined.

(** ** The two patterns, said in full *)

(** X14. The header pattern matches exactly the lines made of optional
    whitespace, the three characters s3., one or more characters that are
    neither whitespace nor an opening brace, optional whitespace, one
    opening brace and optional whitespace; group 1 is s3. with the
    characters after it.  A label that is s3. alone, or anything but
    whitespace after the brace, makes the line an ordinary one. *)
Theorem s3_header_shape (line lbl : str) :
  match_s3_header line = Some lbl <->
  exists w1 x w2 w3,
    line = w1 ++ s3_dot ++ x ++ w2 ++ LBRACE :: w3 /\
    forallb isspace w1 = true /\ x <> [] /\ forallb is_label_char x = true /\
    forallb isspace w2 = true /\ forallb isspace w3 = true /\ lbl = s3_dot ++ x.
Proof.
  split; [apply match_s3_header_elim|].
  intros (w1 & x & w2 & w3 & -> & H1 & Hx & Hl & H2 & H3 & ->).
  now apply match_s3_header_intro.
Qed.

(** X15. On a line of a text (no line boundary inside) the key-value
    pattern matches exactly when the line is optional whitespace, an
    identifier, optional whitespace, an equals sign and anything after it;
    group 1 is the identifier. *)
Theorem env_key_shape (line k : str) :
  no_linebreak line = true ->
  (match_env_key line = Some k <->
   exists w1 w2 t,
     line = w1 ++ k ++ w2 ++ EQ :: t /\
     forallb isspace w1 = true /\ is_ident k = true /\ forallb isspace w2 = true).
Proof.
  intros Hl. split.
  - intros H. apply match_env_key_elim in H.
    destruct H as (w1 & w2 & t & E & H1 & Hk & H2 & _). eauto 10.
  - intros (w1 & w2 & t & -> & H1 & Hk & H2).
    apply match_env_key_intro; try assumption.
    apply env_tail_ok_no_linebreak. unfold no_linebreak in *.
    rewrite !forallb_app in Hl. cbn [forallb] in Hl.
    repeat (apply andb_true_iff in Hl; destruct Hl as [_ Hl]). exact Hl.
Qed.

Lemma env_key_shape_witness :
  match_env_key (py "  PORT = 3000 # web") = Some (py "PORT").
Proof.
  apply (env_key_shape (py "  PORT = 3000 # web") (py "PORT")).
  - vm_compute. reflexivity.
  - exists (py "  "), (py " "), (py " 3000 # web").
    repeat split; vm_compute; reflexivity.
Defined.

(** ** Every update reaches the file *)

(** X16. Whatever the text and the update set, every key of the update set
    stands on a line of the result of [_format_env] that is the key, an
    equals sign and its value between double quotes. *)
Theorem format_env_writes_every_update (d : dict) (original k v : str) :
  dict_get k d = Some v ->
  In (fmt k v) (format_env_lines d original).
Proof.
  intros Hg. rewrite format_env_lines_closed. apply in_or_app.
  destruct (existsb (has_key k) (splitlines original)) eqn:Hex.
  - left. apply existsb_exists in Hex. destruct Hex as [l [Hl Hk]].
    apply has_key_true in Hk. apply in_map_iff. exists l. split; [|assumption].
    unfold rewrite_line. now rewrite Hk, Hg.
  - right. assert (Hmiss : In k (missing_keys d (splitlines original))).
    { unfold missing_keys. apply filter_In. rewrite Hex. split; [|reflexivity].
      apply dict_get_In in Hg. apply in_map_iff. exists (k, v). auto. }
    destruct (missing_keys d (splitlines original)) as [|k0 ks]; [destruct Hmiss|].
    unfold appendix. right. right. apply in_map_iff. exists k.
    split; [|assumption]. unfold getitem. now rewrite Hg.
Qed.

Lemma format_env_writes_every_update_witness :
  In (fmt (py "my.key") (py "v"))
     (format_env_lines dotted_updates (text_of [py "A=1"])).
Proof.
  apply (format_env_writes_every_update dotted_updates (text_of [py "A=1"])
           (py "my.key") (py "v")).
  vm_compute. reflexivity.
Defined.

(** ** A Caddyfile that [main] leaves alone *)

(** X17. [main] does not write the Caddyfile when the file it read has no
    header line of the pattern, uses the newline as its only line boundary
    and ends with one newline after a character that is no whitespace. *)
Theorem main_leaves_clean_caddyfile
  (env : environ) (env_text body : str) (c : char) (w : writes) :
  isspace c = false ->
  lf_only (body ++ [c]) = true ->
  Forall not_header (splitlines ((body ++ [c]) ++ [LF])) ->
  main_writes env env_text ((body ++ [c]) ++ [LF]) = Returns w ->
  caddy_written w = None.
Proof.
  intros Hc Hlf Hno Hw. unfold main_writes in Hw.
  destruct (main_inputs env) as [i|msg]; [|discriminate]. cbn [bind] in Hw.
  injection Hw as <-. cbn [caddy_written].
  assert (E : _strip_s3_vhost_from_caddyfile ((body ++ [c]) ++ [LF])
              = (body ++ [c]) ++ [LF]).
  { unfold _strip_s3_vhost_from_caddyfile.
    rewrite scan_no_header by assumption. f_equal.
    apply rstrip_join_splitlines_app; [assumption| |reflexivity].
    now apply rstrip_snoc. }
  rewrite E. destruct (str_eq_dec _ _); [reflexivity|contradiction].
Qed.

(** An environment with the seven variables set, values padded with
    whitespace as a shell may leave them. *)
Definition sample_environ : environ :=
  fun name =>
    if in_dec str_eq_dec name required_names
    then Some (py " " ++ name ++ py "-value ")
    else None.

Definition clean_caddyfile_body : str :=
  text_of [py "example.com {"; py "  reverse_proxy app:3000"].

Lemma main_leaves_clean_caddyfile_witness :
  exists w,
    main_writes sample_environ sample_env ((clean_caddyfile_body ++ [RBRACE]) ++ [LF])
    = Returns w
    /\ caddy_written w = None.
Proof.
  destruct (main_writes sample_environ sample_env
              ((clean_caddyfile_body ++ [RBRACE]) ++ [LF])) as [w|msg] eqn:E;
    [|vm_compute in E; discriminate E].
  exists w. split; [reflexivity|].
  apply (main_leaves_clean_caddyfile sample_environ sample_env
           clean_caddyfile_body RBRACE w).
  - reflexivity.
  - vm_compute. reflexivity.
  - each_line.
  - exact E.
Defined.

(** ** Running [main] again *)

Lemma dict_update_entries (P : str * str -> Prop) u : forall d,
  Forall P d -> Forall P u -> Forall P (dict_update d u).
Proof.
  unfold dict_update.
  induction u as [|[k1 v1] u IH]; intros d Hd Hu; [assumption|].
  inversion Hu as [|? ? H1 Hu']; subst. simpl. apply IH; [|assumption].
  now apply dict_set_entries.
Qed.

Lemma rewrite_line_ext d1 d2 l :
  (forall k, dict_get k d1 = dict_get k d2) ->
  rewrite_line d1 l = rewrite_line d2 l.
Proof.
  intros H. unfold rewrite_line. destruct (match_env_key l) as [k|]; [|reflexivity].
  now rewrite H.
Qed.

Lemma filter_nil_all {A : Type} (f : A -> bool) (l : list A) :
  filter f l = [] -> forall x, In x l -> f x = false.
Proof.
  induction l as [|a l IH]; simpl; [intros _ x []|].
  destruct (f a) eqn:E; [discriminate|].
  intros H x [<-|Hx]; auto.
Qed.

Lemma all_false_filter_nil {A : Type} (f : A -> bool) (l : list A) :
  (forall x, In x l -> f x = false) -> filter f l = [].
Proof.
  induction l as [|a l IH]; simpl; intros H; [reflexivity|].
  rewrite (H a) by now left. apply IH. intros x Hx. apply H. now right.
Qed.

Lemma main_env_vars_readable i env_text :
  single_line_inputs i -> readable_updates (main_env_vars i env_text).
Proof.
  intros Hi. apply dict_update_readable; [apply parse_env_readable|].
  now apply media_updates_readable.
Qed.

Lemma main_env_lines_nonempty i env_text :
  format_env_lines (main_env_vars i env_text) env_text <> [].
Proof.
  rewrite format_env_lines_closed. intros E.
  apply app_eq_nil in E. destruct E as [Elines Eapp].
  apply map_eq_nil in Elines. rewrite Elines in Eapp.
  assert (Hk : dict_get (py "LANGFUSE_S3_MEDIA_UPLOAD_REGION")
                 (main_env_vars i env_text) = Some (py "auto")).
  { rewrite main_env_vars_get. reflexivity. }
  destruct (keys (main_env_vars i env_text)) as [|k ks] eqn:Ek.
  - destruct (main_env_vars i env_text); [discriminate Hk|discriminate Ek].
  - unfold missing_keys in Eapp. rewrite Ek in Eapp. discriminate Eapp.
Qed.

Lemma main_env_text_lines i env_text :
  single_line_inputs i ->
  splitlines (_format_env (main_env_vars i env_text) env_text)
  = format_env_lines (main_env_vars i env_text) env_text.
Proof.
  intros Hi. unfold _format_env. apply splitlines_join.
  - apply main_env_lines_nonempty.
  - rewrite format_env_lines_closed.
    apply format_env_lines_no_linebreak;
      [now apply main_env_vars_readable|apply splitlines_no_linebreak].
Qed.

(** X18. A definition whose key is not an identifier of the key-value
    pattern (an exported variable, a dotted or dashed name) makes the
    [.env] file grow at every run of [main]: the parser puts the key into
    [env_vars], the pattern never finds it in the file, so the marker
    section is appended with it; the text written has at least three lines
    more than the text read and still holds the defining line, so the next
    run does the same. *)
Theorem main_env_grows_on_unmatched_key
  (i : inputs) (env_text l k v : str) :
  single_line_inputs i ->
  In l (splitlines env_text) ->
  parse_line l = Some (k, v) ->
  is_ident k = false ->
  let new_env_text := _format_env (main_env_vars i env_text) env_text in
  length (splitlines new_env_text) >= length (splitlines env_text) + 3
  /\ In l (splitlines new_env_text)
  /\ exists v', In (fmt k v') (splitlines new_env_text).
Proof.
  intros Hi Hl Hp Hk new_env_text. unfold new_env_text.
  rewrite main_env_text_lines by assumption.
  rewrite format_env_lines_closed.
  set (d := main_env_vars i env_text).
  assert (Hnomatch : forall l2, In l2 (splitlines env_text) ->
                                has_key k l2 = false).
  { intros l2 _. destruct (has_key k l2) eqn:E; [|reflexivity].
    apply has_key_true, match_env_key_ident in E. congruence. }
  assert (Hget : exists v', dict_get k d = Some v').
  { unfold d. rewrite main_env_vars_get.
    destruct (dict_get k (media_updates i)) as [u|]; [simpl; eauto|]. simpl.
    destruct (dict_get k (_parse_env env_text)) as [v0|] eqn:E; [eauto|].
    exfalso. rewrite parse_env_get, last_binding_none in E.
    apply line_binding_some in Hp. rewrite (E l Hl) in Hp. discriminate. }
  destruct Hget as [v' Hv'].
  assert (Hmiss : In k (missing_keys d (splitlines env_text))).
  { unfold missing_keys. apply filter_In. split.
    - apply dict_get_In in Hv'. apply in_map_iff. exists (k, v'). auto.
    - apply negb_true_iff.
      destruct (existsb (has_key k) (splitlines env_text)) eqn:E; [|reflexivity].
      apply existsb_exists in E. destruct E as [l2 [Hl2 Hk2]].
      rewrite (Hnomatch l2 Hl2) in Hk2. discriminate. }
  split; [|split].
  - rewrite length_app, length_map.
    destruct (missing_keys d (splitlines env_text)) as [|k0 ks]; [destruct Hmiss|].
    simpl. lia.
  - apply in_or_app. left. apply in_map_iff. exists l. split; [|assumption].
    unfold rewrite_line. destruct (match_env_key l) as [k2|] eqn:Hm; [|reflexivity].
    destruct (match_defines l k2 Hm) as [x Hx].
    apply match_env_key_ident in Hm. congruence.
  - exists v'. apply in_or_app. right.
    destruct (missing_keys d (splitlines env_text)) as [|k0 ks]; [destruct Hmiss|].
    unfold appendix. right. right. apply in_map_iff. exists k.
    split; [|assumption]. unfold getitem. now rewrite Hv'.
Qed.

Definition export_env : str := text_of [py "export TOKEN=abc"].

Lemma main_env_grows_on_unmatched_key_witness :
  length (splitlines (_format_env (main_env_vars sample_inputs export_env) export_env))
  >= length (splitlines export_env) + 3
  /\ In (py "export TOKEN=abc")
        (splitlines (_format_env (main_env_vars sample_inputs export_env) export_env)).
Proof.
  destruct (main_env_grows_on_unmatched_key sample_inputs export_env
              (py "export TOKEN=abc") (py "export TOKEN") (py "abc"))
    as (H1 & H2 & _).
  - exact sample_inputs_single_line.
  - vm_compute. left. reflexivity.
  - vm_compute. reflexivity.
  - vm_compute. reflexivity.
  - split; assumption.
Defined.

Lemma media_updates_ident i :
  single_line_inputs i ->
  Forall (fun kv => is_ident (fst kv) = true /\ no_linebreak (snd kv) = true)
         (media_updates i).
Proof.
  intros (Hb & Ha & Hs & Hacc). apply Forall_forall. intros [k v] Hin.
  unfold media_updates in Hin.
  repeat (destruct Hin as [E|Hin];
          [injection E as <- <-; split; [vm_compute; reflexivity|]|]);
    try assumption; try reflexivity; try (destruct Hin).
  cbn [snd]. unfold r2_endpoint, no_linebreak in *.
  rewrite !forallb_app, Hacc. reflexivity.
Qed.

(** X19. When every key that the [.env] file defines is an identifier of the
    key-value pattern and the four R2 values hold no line boundary, a second
    run of [main] writes the text it reads: the first run brings the file to
    a fixed point. *)
Theorem main_env_second_run_fixed (i : inputs) (env_text : str) :
  single_line_inputs i ->
  (forall l k v, In l (splitlines env_text) -> parse_line l = Some (k, v) ->
                 is_ident k = true) ->
  let new_env_text := _format_env (main_env_vars i env_text) env_text in
  _format_env (main_env_vars i new_env_text) new_env_text = new_env_text.
Proof.
  intros Hi Hid new_env_text.
  pose (d1 := main_env_vars i env_text).
  pose (d2 := main_env_vars i new_env_text).
  pose (out := map (rewrite_line d1) (splitlines env_text) ++
               appendix d1 (missing_keys d1 (splitlines env_text))).
  assert (Hwf : well_formed_updates d1).
  { assert (H : Forall (fun kv => is_ident (fst kv) = true
                                  /\ no_linebreak (snd kv) = true) d1).
    { apply dict_update_entries.
      - apply parse_env_fold_entries; [|constructor].
        intros l k v Hl Hp. simpl. split; [eapply Hid; eauto|].
        apply (defines_parseable l k v Hp).
        pose proof (splitlines_no_linebreak env_text) as Hn.
        rewrite Forall_forall in Hn. now apply Hn.
      - now apply media_updates_ident. }
    rewrite Forall_forall in H. intros k v Hin. exact (H (k, v) Hin). }
  assert (Hclosed : format_env_lines d1 env_text = out)
    by apply format_env_lines_closed.
  assert (Hnew : new_env_text = join out ++ [LF]).
  { rewrite <- Hclosed. reflexivity. }
  assert (Hlines : splitlines new_env_text = out).
  { rewrite <- Hclosed. now apply main_env_text_lines. }
  assert (Hsame : forall k, dict_get k d2 = dict_get k d1).
  { intros k.
    assert (Hd1 : dict_get k d1
                  = or_else (dict_get k (media_updates i))
                            (dict_get k (_parse_env env_text)))
      by apply main_env_vars_get.
    unfold d2, new_env_text. rewrite main_env_vars_get.
    rewrite (format_parse_get _ (main_env_vars_readable i env_text Hi)).
    change (main_env_vars i env_text) with d1. rewrite Hd1.
    destruct (dict_get k (media_updates i)); [reflexivity|]. simpl.
    destruct (dict_get k (_parse_env env_text)); reflexivity. }
  pose proof (format_env_lines_fixed d1 Hwf _ (splitlines_no_linebreak env_text))
    as (Hmap & Hmiss & _).
  fold out in Hmap, Hmiss.
  assert (E1 : map (rewrite_line d2) out = out).
  { rewrite <- Hmap at 2. apply map_ext. intros l. now apply rewrite_line_ext. }
  assert (E2 : missing_keys d2 out = []).
  { unfold missing_keys. apply all_false_filter_nil. intros k Hk.
    apply in_keys_dict_get in Hk. destruct Hk as [v Hv]. rewrite Hsame in Hv.
    apply (filter_nil_all _ _ Hmiss).
    apply dict_get_In in Hv. apply in_map_iff. exists (k, v). auto. }
  unfold _format_env. rewrite format_env_lines_closed. fold d2.
  rewrite Hlines, E1, E2. simpl appendix. rewrite app_nil_r.
  symmetry. exact Hnew.
Qed.

Lemma main_env_second_run_fixed_witness :
  _format_env
    (main_env_vars sample_inputs
       (_format_env (main_env_vars sample_inputs sample_env) sample_env))
    (_format_env (main_env_vars sample_inputs sample_env) sample_env)
  = _format_env (main_env_vars sample_inputs sample_env) sample_env.
Proof.
  apply (main_env_second_run_fixed sample_inputs sample_env
           sample_inputs_single_line).
  intros l k v Hl Hp. vm_compute in Hl.
  repeat (destruct Hl as [<-|Hl];
          [vm_compute in Hp; first [discriminate Hp
                                   |injection Hp as <- _; vm_compute; reflexivity]|]).
  destruct Hl.
Defined.
